(** * The Librarian Game: the playing state's simulation tick

    A shallow embedding of [src/game/states/PlayingState.js]: the chaos
    meter, the XP and level-up loop, the kid spawn scheduler, the three
    proximity passes (pickup, snatch-back, shelving) and the per-tick
    [update] that sequences them.

    Conventions of the embedding.
    - JavaScript numbers are idealised as exact rationals ([Q]); [==] is
      equality of rationals.  Quantities the source only ever writes with
      integers ([xp], [xpToNext], [playerLevel], the counters) are [Z].
    - Books are shared mutable objects: [this.books] owns them, and the
      player's [carriedBooks], a kid's [carriedBook] and a shelf's [books]
      hold references.  A reference is the book's index in [books].
    - Calls to the state manager and to audio elements are recorded, in
      order, in two logs carried by the state.
    - [Math.random()] is an input of the tick, a rational in [0, 1). *)

From Stdlib Require Import QArith Qminmax Qround Qpower ZArith Lia Lqa String.
From stdpp Require Import base list.
From Stdlib Require Import Sorted.

Local Open Scope Q_scope.

(** ** Entities *)

Inductive Color := red | blue | green | yellow | purple | orange.

Definition Color_eqb (a b : Color) : bool :=
  match a, b with
  | red, red | blue, blue | green, green
  | yellow, yellow | purple, purple | orange, orange => true
  | _, _ => false
  end.

Inductive KidState := seeking | carrying | fleeing.

(** The rectangle every entity exposes through [getBounds()]. *)
Record Bounds := { x : Q; y : Q; width : Q; height : Q }.

(** Modelled from the spec: [getCenterX] and [getCenterY] belong to the
    entity classes ([entities/*.js]), whose code is not in
    [PlayingState.js]; the centre of the bounding box. *)
Definition getCenterX (b : Bounds) : Q := x b + width b / 2.
Definition getCenterY (b : Bounds) : Q := y b + height b / 2.

Record Book := {
  book_bounds : Bounds;
  color : Color;
  isHeld : bool;
  isShelved : bool
}.

Record Stats := {
  pickupRadius : Q;
  returnRadius : Q;
  carrySlots : Z;
  stamina : Q;
  maxStamina : Q;
  chaosDampening : Q;
  xpMultiplier : Q
}.

Record Player := {
  player_bounds : Bounds;
  stats : Stats;
  repelRadius : Q;
  carriedBooks : list nat
}.

Record Kid := {
  kid_bounds : Bounds;
  aggressionLevel : Z;
  state : KidState;
  carriedBook : option nat;
  dropBookTimer : Q
}.

Record Shelf := {
  shelf_bounds : Bounds;
  shelf_color : Color;
  capacity : nat;
  shelf_books : list nat
}.

(** A floating text particle; [text] is the awarded amount [n] of the
    source's template string [+n XP]. *)
Inductive ParticleType := xp_text.

Record Particle := {
  ptype : ParticleType;
  particle_x : Q;
  particle_y : Q;
  text : Z;
  vy : Q;
  lifetime : Q;
  age : Q
}.

(** ** Game data and the playing state *)

Record GameData := {
  chaosLevel : Q;
  maxChaos : Q;
  playerLevel : Z;
  xp : Z;
  xpToNext : Z;
  elapsedTime : Q;
  targetTime : Q;
  isPaused : bool;
  booksCollected : Z;
  booksShelved : Z;
  kidsRepelled : Z
}.

(** Calls made on [game.stateManager] and on audio elements. *)
Inductive StateCall :=
| pushState (name : string)
| changeState (name : string) (won : bool) (reason : option string).

Inductive AudioCall := bgMusic_pause | pickupSound_play | shelfSound_play.

Record PlayingState := {
  gameData : GameData;
  player : option Player;
  kids : list Kid;
  books : list Book;
  shelves : list Shelf;
  particles : list Particle;
  particlePool : list Particle;
  kidSpawnTimer : Q;
  kidSpawnInterval : Q;
  maxKids : Z;
  stateManager : list StateCall;
  audio : list AudioCall
}.

(** Field updates. *)

Definition with_chaosLevel (c : Q) (g : GameData) : GameData :=
  {| chaosLevel := c; maxChaos := maxChaos g; playerLevel := playerLevel g;
     xp := xp g; xpToNext := xpToNext g; elapsedTime := elapsedTime g;
     targetTime := targetTime g; isPaused := isPaused g;
     booksCollected := booksCollected g; booksShelved := booksShelved g;
     kidsRepelled := kidsRepelled g |}.

Definition with_progress (lvl xp' next : Z) (g : GameData) : GameData :=
  {| chaosLevel := chaosLevel g; maxChaos := maxChaos g; playerLevel := lvl;
     xp := xp'; xpToNext := next; elapsedTime := elapsedTime g;
     targetTime := targetTime g; isPaused := isPaused g;
     booksCollected := booksCollected g; booksShelved := booksShelved g;
     kidsRepelled := kidsRepelled g |}.

Definition with_elapsedTime (t : Q) (g : GameData) : GameData :=
  {| chaosLevel := chaosLevel g; maxChaos := maxChaos g;
     playerLevel := playerLevel g; xp := xp g; xpToNext := xpToNext g;
     elapsedTime := t; targetTime := targetTime g; isPaused := isPaused g;
     booksCollected := booksCollected g; booksShelved := booksShelved g;
     kidsRepelled := kidsRepelled g |}.

Definition with_booksCollected (n : Z) (g : GameData) : GameData :=
  {| chaosLevel := chaosLevel g; maxChaos := maxChaos g;
     playerLevel := playerLevel g; xp := xp g; xpToNext := xpToNext g;
     elapsedTime := elapsedTime g; targetTime := targetTime g;
     isPaused := isPaused g; booksCollected := n;
     booksShelved := booksShelved g; kidsRepelled := kidsRepelled g |}.

Definition with_booksShelved (n : Z) (g : GameData) : GameData :=
  {| chaosLevel := chaosLevel g; maxChaos := maxChaos g;
     playerLevel := playerLevel g; xp := xp g; xpToNext := xpToNext g;
     elapsedTime := elapsedTime g; targetTime := targetTime g;
     isPaused := isPaused g; booksCollected := booksCollected g;
     booksShelved := n; kidsRepelled := kidsRepelled g |}.

Definition set_gameData (g : GameData) (s : PlayingState) : PlayingState :=
  {| gameData := g; player := player s; kids := kids s; books := books s;
     shelves := shelves s; particles := particles s;
     particlePool := particlePool s; kidSpawnTimer := kidSpawnTimer s;
     kidSpawnInterval := kidSpawnInterval s; maxKids := maxKids s;
     stateManager := stateManager s; audio := audio s |}.

Definition set_player (p : option Player) (s : PlayingState) : PlayingState :=
  {| gameData := gameData s; player := p; kids := kids s; books := books s;
     shelves := shelves s; particles := particles s;
     particlePool := particlePool s; kidSpawnTimer := kidSpawnTimer s;
     kidSpawnInterval := kidSpawnInterval s; maxKids := maxKids s;
     stateManager := stateManager s; audio := audio s |}.

Definition set_kids (ks : list Kid) (s : PlayingState) : PlayingState :=
  {| gameData := gameData s; player := player s; kids := ks; books := books s;
     shelves := shelves s; particles := particles s;
     particlePool := particlePool s; kidSpawnTimer := kidSpawnTimer s;
     kidSpawnInterval := kidSpawnInterval s; maxKids := maxKids s;
     stateManager := stateManager s; audio := audio s |}.

Definition set_books (bs : list Book) (s : PlayingState) : PlayingState :=
  {| gameData := gameData s; player := player s; kids := kids s; books := bs;
     shelves := shelves s; particles := particles s;
     particlePool := particlePool s; kidSpawnTimer := kidSpawnTimer s;
     kidSpawnInterval := kidSpawnInterval s; maxKids := maxKids s;
     stateManager := stateManager s; audio := audio s |}.

Definition set_shelves (ss : list Shelf) (s : PlayingState) : PlayingState :=
  {| gameData := gameData s; player := player s; kids := kids s;
     books := books s; shelves := ss; particles := particles s;
     particlePool := particlePool s; kidSpawnTimer := kidSpawnTimer s;
     kidSpawnInterval := kidSpawnInterval s; maxKids := maxKids s;
     stateManager := stateManager s; audio := audio s |}.

Definition set_particles (ps pool : list Particle) (s : PlayingState)
  : PlayingState :=
  {| gameData := gameData s; player := player s; kids := kids s;
     books := books s; shelves := shelves s; particles := ps;
     particlePool := pool; kidSpawnTimer := kidSpawnTimer s;
     kidSpawnInterval := kidSpawnInterval s; maxKids := maxKids s;
     stateManager := stateManager s; audio := audio s |}.

Definition set_kidSpawnTimer (t : Q) (s : PlayingState) : PlayingState :=
  {| gameData := gameData s; player := player s; kids := kids s;
     books := books s; shelves := shelves s; particles := particles s;
     particlePool := particlePool s; kidSpawnTimer := t;
     kidSpawnInterval := kidSpawnInterval s; maxKids := maxKids s;
     stateManager := stateManager s; audio := audio s |}.

Definition set_maxKids (n : Z) (s : PlayingState) : PlayingState :=
  {| gameData := gameData s; player := player s; kids := kids s;
     books := books s; shelves := shelves s; particles := particles s;
     particlePool := particlePool s; kidSpawnTimer := kidSpawnTimer s;
     kidSpawnInterval := kidSpawnInterval s; maxKids := n;
     stateManager := stateManager s; audio := audio s |}.

(** [this.game.stateManager.pushState(..)] / [changeState(..)]: the call is
    appended to the log. *)
Definition call_stateManager (c : StateCall) (s : PlayingState)
  : PlayingState :=
  {| gameData := gameData s; player := player s; kids := kids s;
     books := books s; shelves := shelves s; particles := particles s;
     particlePool := particlePool s; kidSpawnTimer := kidSpawnTimer s;
     kidSpawnInterval := kidSpawnInterval s; maxKids := maxKids s;
     stateManager := stateManager s ++ [c]; audio := audio s |}.

Definition call_audio (c : AudioCall) (s : PlayingState) : PlayingState :=
  {| gameData := gameData s; player := player s; kids := kids s;
     books := books s; shelves := shelves s; particles := particles s;
     particlePool := particlePool s; kidSpawnTimer := kidSpawnTimer s;
     kidSpawnInterval := kidSpawnInterval s; maxKids := maxKids s;
     stateManager := stateManager s; audio := audio s ++ [c] |}.

Definition set_stamina (v : Q) (st : Stats) : Stats :=
  {| pickupRadius := pickupRadius st; returnRadius := returnRadius st;
     carrySlots := carrySlots st; stamina := v; maxStamina := maxStamina st;
     chaosDampening := chaosDampening st; xpMultiplier := xpMultiplier st |}.

Definition set_stats (st : Stats) (p : Player) : Player :=
  {| player_bounds := player_bounds p; stats := st;
     repelRadius := repelRadius p; carriedBooks := carriedBooks p |}.

Definition set_carriedBooks (l : list nat) (p : Player) : Player :=
  {| player_bounds := player_bounds p; stats := stats p;
     repelRadius := repelRadius p; carriedBooks := l |}.

(** ** Numeric helpers *)

Definition Qltb (a b : Q) : bool := negb (Qle_bool b a).

(** [Math.max(0, Math.min(hi, v))]. *)
Definition clamp (hi v : Q) : Q := Qmax 0 (Qmin hi v).

(** [Math.sqrt(dx^2 + dy^2) <= r], decided without the square root: over
    the reals it holds exactly when [r] is not negative and
    [dx^2 + dy^2 <= r^2]. *)
Definition distance_le (ax ay bx by_ r : Q) : bool :=
  Qle_bool 0 r &&
  Qle_bool ((ax - bx) * (ax - bx) + (ay - by_) * (ay - by_)) (r * r).

(** ** Chaos *)

Definition onFloor (b : Book) : bool := negb (isHeld b) && negb (isShelved b).

Definition booksOnFloor (s : PlayingState) : nat :=
  length (List.filter onFloor (books s)).

(** [this.player?.stats?.chaosDampening || 0]. *)
Definition chaosDampeningOf (s : PlayingState) : Q :=
  match player s with
  | Some p => chaosDampening (stats p)
  | None => 0
  end.

(** The value of [gameData.chaosLevel] before the final clamp. *)
Definition chaosDrift (deltaTime : Q) (s : PlayingState) : Q :=
  let level := chaosLevel (gameData s) in
  if (0 <? booksOnFloor s)%nat then
    let chaosRate := inject_Z (Z.of_nat (booksOnFloor s)) * 0.1 in
    let chaosMultiplier := 1 - chaosDampeningOf s / 100 in
    level + chaosRate * deltaTime * chaosMultiplier
  else if Qltb 0 level then level - 0.5 * deltaTime
  else level.

Definition updateChaos (deltaTime : Q) (s : PlayingState) : PlayingState :=
  let gd := gameData s in
  set_gameData
    (with_chaosLevel (clamp (maxChaos gd) (chaosDrift deltaTime s)) gd) s.

(** ** Experience and levelling *)

(** [Math.floor(100 * Math.pow(1.45, level - 1))]. *)
Definition xpThreshold (level : Z) : Z := Qfloor (100 * 1.45 ^ (level - 1)).

(** [ObjectPool.get]: the pool is a stack, its top the head of the list;
    an empty pool builds a fresh particle with [creationFunc]. *)
Definition creationFunc : Particle :=
  {| ptype := xp_text; particle_x := 0; particle_y := 0; text := 0%Z;
     vy := 0; lifetime := 0; age := 0 |}.

Definition pool_get (pool : list Particle) : Particle * list Particle :=
  match pool with
  | p :: rest => (p, rest)
  | [] => (creationFunc, [])
  end.

(** [ObjectPool.release]. *)
Definition pool_release (p : Particle) (pool : list Particle)
  : list Particle := p :: pool.

(** Modelled from the spec: [Player.getXPMultiplier] belongs to
    [entities/Player.js], whose code is not in [PlayingState.js]; it reads
    the player's [xpMultiplier] stat. *)
Definition getXPMultiplier (p : Player) : Q := xpMultiplier (stats p).

(** [this.player?.getXPMultiplier() || 1]: a zero multiplier is falsy. *)
Definition xpMultiplierOf (s : PlayingState) : Q :=
  match player s with
  | Some p => if Qeq_bool (getXPMultiplier p) 0 then 1 else getXPMultiplier p
  | None => 1
  end.

(** [this.player.stats.stamina = this.player.stats.maxStamina]. *)
Definition refill (p : Player) : Player :=
  set_stats (set_stamina (maxStamina (stats p)) (stats p)) p.

(** One run of the body of [while (gameData.xp >= gameData.xpToNext)]. *)
Definition levelUp (s : PlayingState) : PlayingState :=
  let gd := gameData s in
  let level := (playerLevel gd + 1)%Z in
  let s1 :=
    set_gameData
      (with_progress level (xp gd - xpToNext gd)%Z (xpThreshold level) gd) s in
  let s2 :=
    match player s1 with
    | Some p => set_player (Some (refill p)) s1
    | None => s1
    end in
  call_stateManager (pushState "upgradeSelection") s2.

Definition levelUpGuard (s : PlayingState) : bool :=
  (xpToNext (gameData s) <=? xp (gameData s))%Z.

Fixpoint levelUpIter (fuel : nat) (s : PlayingState) : PlayingState :=
  match fuel with
  | O => s
  | S fuel' => if levelUpGuard s then levelUpIter fuel' (levelUp s) else s
  end.

(** An upper bound on the number of iterations of the loop from a state
    whose threshold is the one of its level: every iteration either uses up
    at least one point of [xp] or raises a level that is below 1. *)
Definition levelUpBound (s : PlayingState) : nat :=
  Z.to_nat (xp (gameData s)) + Z.to_nat (1 - playerLevel (gameData s)).

(** The [while] loop of [awardXP]; [levelUpLoop_unfold] below shows that it
    satisfies the loop's equation in every state. *)
Definition levelUpLoop (s : PlayingState) : PlayingState :=
  levelUpIter (S (levelUpBound (levelUp s))) s.

(** [awardXP] up to its [while] loop: the floored, multiplied amount is
    added to [xp] and, when there is a player, one pooled particle shows
    it. *)
Definition gainXP (amount : Q) (s : PlayingState) : PlayingState :=
  let gd := gameData s in
  let multipliedAmount := Qfloor (amount * xpMultiplierOf s) in
  let s1 :=
    set_gameData
      (with_progress (playerLevel gd) (xp gd + multipliedAmount)%Z
         (xpToNext gd) gd) s in
  match player s1 with
  | Some p =>
      let (_, pool) := pool_get (particlePool s1) in
      let particle :=
        {| ptype := xp_text;
           particle_x := getCenterX (player_bounds p);
           particle_y := y (player_bounds p) - 10;
           text := multipliedAmount;
           vy := -50; lifetime := 1.5; age := 0 |} in
      set_particles (particles s1 ++ [particle]) pool s1
  | None => s1
  end.

Definition awardXP (amount : Q) (s : PlayingState) : PlayingState :=
  levelUpLoop (gainXP amount s).

(** ** Particles *)

Definition particle_advance (deltaTime : Q) (p : Particle) : Particle :=
  {| ptype := ptype p;
     particle_x := particle_x p;
     particle_y := match ptype p with
                   | xp_text => particle_y p + vy p * deltaTime
                   end;
     text := text p;
     vy := match ptype p with xp_text => vy p + 100 * deltaTime end;
     lifetime := lifetime p;
     age := age p + deltaTime |}.

Definition expired (p : Particle) : bool := Qle_bool (lifetime p) (age p).

Definition updateParticles (deltaTime : Q) (s : PlayingState)
  : PlayingState :=
  let aged := map (particle_advance deltaTime) (particles s) in
  set_particles
    (List.filter (fun p => negb (expired p)) aged)
    (fold_left (fun pool p => pool_release p pool)
       (List.filter expired aged) (particlePool s))
    s.

(** ** Sounds *)

Definition playPickupSound (s : PlayingState) : PlayingState :=
  call_audio pickupSound_play s.

Definition playShelfSound (s : PlayingState) : PlayingState :=
  call_audio shelfSound_play s.

(** ** Collaborators of the proximity passes *)

(** Modelled from the spec: [Player.pickupBook] belongs to
    [entities/Player.js], whose code is not in [PlayingState.js]; it takes
    the book when the player has free carry capacity and reports whether it
    did. *)
Definition pickupBook (book : nat) (p : Player) : bool * Player :=
  if (Z.of_nat (length (carriedBooks p)) <? carrySlots (stats p))%Z
  then (true, set_carriedBooks (carriedBooks p ++ [book]) p)
  else (false, p).

(** Modelled from the spec: [Book.pickup] belongs to [entities/Book.js],
    whose code is not in [PlayingState.js]; the book becomes held (by the
    carrier given) and is no longer on a shelf. *)
Definition Book_pickup (b : Book) : Book :=
  {| book_bounds := book_bounds b; color := color b;
     isHeld := true; isShelved := false |}.

(** Modelled from the spec: what [Shelf.addBook], whose code is not in
    [PlayingState.js], does to the book it accepts; the book becomes
    shelved and is no longer held. *)
Definition Book_shelve (b : Book) : Book :=
  {| book_bounds := book_bounds b; color := color b;
     isHeld := false; isShelved := true |}.

Definition colorOf (bs : list Book) (book : nat) : option Color :=
  color <$> bs !! book.

Definition matches (bs : list Book) (c : Color) (book : nat) : bool :=
  match colorOf bs book with
  | Some c' => Color_eqb c' c
  | None => false
  end.

(** The first carried book of colour [c], and the carried books without
    it. *)
Fixpoint take_matching (bs : list Book) (c : Color) (l : list nat)
  : option (nat * list nat) :=
  match l with
  | [] => None
  | b :: rest =>
      if matches bs c b then Some (b, rest)
      else match take_matching bs c rest with
           | Some (b', rest') => Some (b', b :: rest')
           | None => None
           end
  end.

(** Modelled from the spec: [Player.shelveBook] belongs to
    [entities/Player.js], whose code is not in [PlayingState.js]; it hands
    over one carried book that the shelf accepts (same colour), or [null]
    when the player carries none. *)
Definition shelveBook (bs : list Book) (sh : Shelf) (p : Player)
  : option nat * Player :=
  match take_matching bs (shelf_color sh) (carriedBooks p) with
  | Some (b, rest) => (Some b, set_carriedBooks rest p)
  | None => (None, p)
  end.

(** Modelled from the spec: [Shelf.hasEmptySlots] belongs to
    [entities/Shelf.js], whose code is not in [PlayingState.js]; fewer
    books than [capacity]. *)
Definition hasEmptySlots (sh : Shelf) : bool :=
  (length (shelf_books sh) <? capacity sh)%nat.

(** Modelled from the spec: [Shelf.addBook] belongs to
    [entities/Shelf.js], whose code is not in [PlayingState.js]; it accepts
    a book of the shelf's colour while a slot is free, and reports whether
    it did. *)
Definition addBook (bs : list Book) (book : nat) (sh : Shelf)
  : option Shelf :=
  if matches bs (shelf_color sh) book && hasEmptySlots sh
  then Some {| shelf_bounds := shelf_bounds sh; shelf_color := shelf_color sh;
               capacity := capacity sh;
               shelf_books := shelf_books sh ++ [book] |}
  else None.

Definition isPlayerNearShelf (s : PlayingState) (sh : Shelf) (distance : Q)
  : bool :=
  match player s with
  | None => false
  | Some p =>
      let playerBounds := player_bounds p in
      let shelfBounds := shelf_bounds sh in
      Qltb (x playerBounds) (x shelfBounds + width shelfBounds + distance) &&
      Qltb (x shelfBounds - distance) (x playerBounds + width playerBounds) &&
      Qltb (y playerBounds) (y shelfBounds + height shelfBounds + distance) &&
      Qltb (y shelfBounds - distance) (y playerBounds + height playerBounds)
  end.

(** ** The proximity passes *)

(** The single statements of the passes, as state updates. *)

(** [this.game.gameData.booksCollected++]. *)
Definition countCollected (s : PlayingState) : PlayingState :=
  set_gameData
    (with_booksCollected (booksCollected (gameData s) + 1)%Z (gameData s)) s.

(** [this.game.gameData.booksShelved++]. *)
Definition countShelved (s : PlayingState) : PlayingState :=
  set_gameData
    (with_booksShelved (booksShelved (gameData s) + 1)%Z (gameData s)) s.

(** [this.game.gameData.chaosLevel -= delta]. *)
Definition lowerChaos (delta : Q) (s : PlayingState) : PlayingState :=
  set_gameData
    (with_chaosLevel (chaosLevel (gameData s) - delta) (gameData s)) s.

(** [book.pickup(this.player)] on the book at index [book]. *)
Definition markHeld (book : nat) (s : PlayingState) : PlayingState :=
  set_books (alter Book_pickup book (books s)) s.

(** The effect of a successful [shelf.addBook(book)] on the book. *)
Definition markShelved (book : nat) (s : PlayingState) : PlayingState :=
  set_books (alter Book_shelve book (books s)) s.

Definition drop_carried (k : Kid) : Kid :=
  {| kid_bounds := kid_bounds k; aggressionLevel := aggressionLevel k;
     state := state k; carriedBook := None; dropBookTimer := 0 |}.

Definition set_state (st : KidState) (k : Kid) : Kid :=
  {| kid_bounds := kid_bounds k; aggressionLevel := aggressionLevel k;
     state := st; carriedBook := carriedBook k;
     dropBookTimer := dropBookTimer k |}.

(** [kid.carriedBook = null; kid.dropBookTimer = 0] on the kid at index
    [i]. *)
Definition kidLosesBook (i : nat) (s : PlayingState) : PlayingState :=
  set_kids (alter drop_carried i (kids s)) s.

(** [kid.state = 'fleeing'] on the kid at index [i]. *)
Definition kidFlees (i : nat) (s : PlayingState) : PlayingState :=
  set_kids (alter (set_state fleeing) i (kids s)) s.

(** The effect of a successful [shelf.addBook(book)] on the shelf at
    index [i]. *)
Definition putShelf (i : nat) (sh : Shelf) (s : PlayingState)
  : PlayingState :=
  set_shelves (<[i := sh]> (shelves s)) s.

(** The body of [for (const book of this.books)] in [checkBookPickup],
    for the book at index [i]. *)
Definition pickupVisit (radius playerCenterX playerCenterY : Q)
    (s : PlayingState) (i : nat) : PlayingState :=
  match books s !! i, player s with
  | Some book, Some p =>
      if isHeld book || isShelved book then s
      else if distance_le (getCenterX (book_bounds book))
                (getCenterY (book_bounds book))
                playerCenterX playerCenterY radius
      then
        match pickupBook i p with
        | (true, p') =>
            playPickupSound
              (awardXP 5
                 (lowerChaos 0.5
                    (countCollected
                       (markHeld i (set_player (Some p') s)))))
        | (false, _) => s
        end
      else s
  | _, _ => s
  end.

Definition checkBookPickup (s : PlayingState) : PlayingState :=
  match player s with
  | None => s
  | Some p =>
      let radius := pickupRadius (stats p) * 32 in
      let playerCenterX := getCenterX (player_bounds p) in
      let playerCenterY := getCenterY (player_bounds p) in
      fold_left (pickupVisit radius playerCenterX playerCenterY)
        (seq 0 (length (books s))) s
  end.

(** The body of [for (const kid of this.kids)] in [checkBookSnatching],
    for the kid at index [i]. *)
Definition snatchVisit (snatchRadius playerCenterX playerCenterY : Q)
    (s : PlayingState) (i : nat) : PlayingState :=
  match kids s !! i, player s with
  | Some kid, Some p =>
      match carriedBook kid with
      | None => s
      | Some book =>
          if distance_le (getCenterX (kid_bounds kid))
               (getCenterY (kid_bounds kid))
               playerCenterX playerCenterY snatchRadius
          then
            match pickupBook book p with
            | (true, p') =>
                playPickupSound
                  (awardXP 7
                     (lowerChaos 0.75
                        (kidFlees i
                           (countCollected
                              (markHeld book
                                 (set_player (Some p')
                                    (kidLosesBook i s)))))))
            | (false, _) => kidLosesBook i s
            end
          else s
      end
  | _, _ => s
  end.

Definition checkBookSnatching (s : PlayingState) : PlayingState :=
  match player s with
  | None => s
  | Some p =>
      if (carrySlots (stats p) <=? Z.of_nat (length (carriedBooks p)))%Z
      then s
      else
        let snatchRadius := repelRadius p in
        let playerCenterX := getCenterX (player_bounds p) in
        let playerCenterY := getCenterY (player_bounds p) in
        fold_left (snatchVisit snatchRadius playerCenterX playerCenterY)
          (seq 0 (length (kids s))) s
  end.

(** The body of [for (const shelf of this.shelves)] in
    [checkBookShelving], for the shelf at index [i]. *)
Definition shelveVisit (radius : Q) (s : PlayingState) (i : nat)
  : PlayingState :=
  match shelves s !! i, player s with
  | Some shelf, Some p =>
      if isPlayerNearShelf s shelf radius && hasEmptySlots shelf then
        match shelveBook (books s) shelf p with
        | (Some book, p') =>
            match addBook (books s) book shelf with
            | Some shelf' =>
                playShelfSound
                  (awardXP 10
                     (lowerChaos 1.0
                        (countShelved
                           (markShelved book
                              (putShelf i shelf'
                                 (set_player (Some p') s))))))
            | None => set_player (Some p') s
            end
        | (None, _) => s
        end
      else s
  | _, _ => s
  end.

Definition checkBookShelving (s : PlayingState) : PlayingState :=
  match player s with
  | None => s
  | Some p =>
      if (length (carriedBooks p) =? 0)%nat then s
      else
        let radius := returnRadius (stats p) * 32 in
        fold_left (shelveVisit radius) (seq 0 (length (shelves s))) s
  end.

(** ** Kid spawning *)

Definition spawnPoints : list (Q * Q) :=
  [ (50, 520); (1550, 520); (800, 50); (800, 990) ].

(** A value of [Math.random()]: a rational in the half-open interval
    from 0 to 1. *)
Record Random := {
  rval : Q;
  rval_range : Qle_bool 0 rval && Qltb rval 1 = true
}.

(** [Math.floor(Math.random() * n)]. *)
Definition randomIndex (r : Random) (n : nat) : nat :=
  Z.to_nat (Qfloor (rval r * inject_Z (Z.of_nat n))).

Definition aggressionFor (minutes : Q) : Z :=
  if Qle_bool 10 minutes then 3%Z
  else if Qle_bool 5 minutes then 2%Z
  else 1%Z.

(** ** The tick *)

(** [gameData.elapsedTime += deltaTime]. *)
Definition advanceTime (deltaTime : Q) (s : PlayingState) : PlayingState :=
  set_gameData
    (with_elapsedTime (elapsedTime (gameData s) + deltaTime) (gameData s)) s.

(** The difficulty ramp at the head of [updateKidSpawning]: [maxKids]
    becomes 10 after five minutes, 5 after two, and is otherwise left as
    it is. *)
Definition ramp (s : PlayingState) : PlayingState :=
  let minutes := elapsedTime (gameData s) / 60 in
  if Qltb 5 minutes then set_maxKids 10 s
  else if Qltb 2 minutes then set_maxKids 5 s
  else s.

Section Tick.

(** The constructor of the [Kid] class, whose code is not in
    [PlayingState.js]: [new Kid(game, x, y, aggressionLevel)]. *)
Variable Kid_new : Q -> Q -> Z -> Kid.

(** The self-updates of the entities, whose code is not in
    [PlayingState.js]: [player.update], then every [shelf.update],
    [book.update] and [kid.update], each with [deltaTime]. *)
Variable entitiesUpdate : Q -> PlayingState -> PlayingState.

Definition updateKidSpawning (deltaTime : Q) (rnd : Random)
    (s : PlayingState) : PlayingState :=
  let minutes := elapsedTime (gameData s) / 60 in
  let s1 := ramp s in
  if (maxKids s1 <=? Z.of_nat (length (kids s1)))%Z then s1
  else
    let s2 := set_kidSpawnTimer (kidSpawnTimer s1 - deltaTime) s1 in
    if Qle_bool (kidSpawnTimer s2) 0 then
      match spawnPoints !! randomIndex rnd (length spawnPoints) with
      | Some spawnPoint =>
          let kid :=
            Kid_new (fst spawnPoint) (snd spawnPoint)
              (aggressionFor minutes) in
          set_kidSpawnTimer (kidSpawnInterval s2)
            (set_kids (kids s2 ++ [kid]) s2)
      | None => s2
      end
    else s2.

(** The interaction part of a tick, from the spawn scheduler on. *)
Definition interactions (deltaTime : Q) (rnd : Random) (s : PlayingState)
  : PlayingState :=
  updateParticles deltaTime
    (checkBookShelving
       (checkBookSnatching
          (checkBookPickup (updateKidSpawning deltaTime rnd s)))).

(** One tick.  [pausePressed] is
    [input.isKeyPressed('p') || input.isKeyPressed('Escape')]; the
    background music exists once [enter] has run. *)
Definition update (pausePressed : bool) (deltaTime : Q) (rnd : Random)
    (s : PlayingState) : PlayingState :=
  if pausePressed then
    call_stateManager (pushState "paused") (call_audio bgMusic_pause s)
  else if isPaused (gameData s) then s
  else
    let s1 := advanceTime deltaTime s in
    if Qle_bool (targetTime (gameData s1)) (elapsedTime (gameData s1)) then
      call_stateManager (changeState "gameover" true None) s1
    else
      let s2 := updateChaos deltaTime s1 in
      if Qle_bool (maxChaos (gameData s2)) (chaosLevel (gameData s2)) then
        call_stateManager
          (changeState "gameover" false (Some "chaos"%string)) s2
      else
        interactions deltaTime rnd (entitiesUpdate deltaTime s2).

(** The state in which the pickup pass of a tick starts. *)
Definition beforePickup (deltaTime : Q) (rnd : Random) (s : PlayingState)
  : PlayingState :=
  updateKidSpawning deltaTime rnd
    (entitiesUpdate deltaTime
       (updateChaos deltaTime (advanceTime deltaTime s))).

End Tick.


(** ** Relations between the state before and after a step *)

(** The threshold is the one of the current level, as the loop body
    leaves it. *)
Definition threshold_ok (s : PlayingState) : Prop :=
  xpToNext (gameData s) = xpThreshold (playerLevel (gameData s)).

(** The game data, the player and the state manager log are the same. *)
Definition same_core (s s' : PlayingState) : Prop :=
  gameData s' = gameData s /\ player s' = player s /\
  stateManager s' = stateManager s.

(** [maxChaos] is unchanged and the chaos level has not grown. *)
Definition chaos_noninc (s s' : PlayingState) : Prop :=
  maxChaos (gameData s') = maxChaos (gameData s) /\
  chaosLevel (gameData s') <= chaosLevel (gameData s).


(** The player's held list, empty when there is no player. *)
Definition carriedByPlayer (s : PlayingState) : list nat :=
  match player s with
  | Some p => carriedBooks p
  | None => []
  end.


(** ** Sequences of chaos updates and interaction passes *)

Inductive ChaosEvent :=
| tick_updateChaos (deltaTime : Q)
| pass_pickup
| pass_snatch
| pass_shelving.

Definition applyEvent (e : ChaosEvent) (s : PlayingState) : PlayingState :=
  match e with
  | tick_updateChaos deltaTime => updateChaos deltaTime s
  | pass_pickup => checkBookPickup s
  | pass_snatch => checkBookSnatching s
  | pass_shelving => checkBookShelving s
  end.

Definition run (events : list ChaosEvent) (s : PlayingState) : PlayingState :=
  fold_left (fun s e => applyEvent e s) events s.

Definition chaosInRange (s : PlayingState) : Prop :=
  0 <= chaosLevel (gameData s) /\
  chaosLevel (gameData s) <= maxChaos (gameData s).

(** ** Who references a book *)

Definition count_nat (i : nat) (l : list nat) : nat :=
  length (List.filter (Nat.eqb i) l).

Definition carries (i : nat) (k : Kid) : bool :=
  match carriedBook k with
  | Some b => Nat.eqb i b
  | None => false
  end.

(** The floor list is [this.books.filter(b => !b.isHeld && !b.isShelved)];
    the carriers are the player and the kids. *)
Definition onFloorRefs (i : nat) (s : PlayingState) : nat :=
  match books s !! i with
  | Some b => if onFloor b then 1 else 0
  | None => 0
  end.

Definition heldRefs (i : nat) (s : PlayingState) : nat :=
  match player s with
  | Some p => count_nat i (carriedBooks p)
  | None => 0
  end
  + length (List.filter (carries i) (kids s)).

Definition shelfRefs (i : nat) (s : PlayingState) : nat :=
  list_sum (map (fun sh => count_nat i (shelf_books sh)) (shelves s)).

Definition references (i : nat) (s : PlayingState) : nat :=
  onFloorRefs i s + heldRefs i s + shelfRefs i s.

(** The number of [pushState('upgradeSelection')] calls in a log. *)
Definition isUpgradePush (c : StateCall) : bool :=
  match c with
  | pushState name => String.eqb name "upgradeSelection"
  | changeState _ _ _ => false
  end.

Definition upgradePushes (log : list StateCall) : nat :=
  length (List.filter isUpgradePush log).

(** ** Sample states *)

Definition sample_stats : Stats :=
  {| pickupRadius := 1.5; returnRadius := 2; carrySlots := 3;
     stamina := 40; maxStamina := 100; chaosDampening := 0;
     xpMultiplier := 1 |}.

Definition sample_player (carried : list nat) : Player :=
  {| player_bounds := {| x := 100; y := 150; width := 32; height := 32 |};
     stats := sample_stats; repelRadius := 100; carriedBooks := carried |}.

Definition sample_gameData (chaos : Q) (xp0 : Z) : GameData :=
  {| chaosLevel := chaos; maxChaos := 100; playerLevel := 1; xp := xp0;
     xpToNext := 100; elapsedTime := 0; targetTime := 1800;
     isPaused := false; booksCollected := 0; booksShelved := 0;
     kidsRepelled := 0 |}.

Definition sample_book (bx by_ : Q) (c : Color) (held shelved : bool) : Book :=
  {| book_bounds := {| x := bx; y := by_; width := 16; height := 16 |};
     color := c; isHeld := held; isShelved := shelved |}.

Definition sample_kid (kx ky : Q) (b : option nat) : Kid :=
  {| kid_bounds := {| x := kx; y := ky; width := 24; height := 24 |};
     aggressionLevel := 1; state := carrying; carriedBook := b;
     dropBookTimer := 3 |}.

(** A kid as the spawn scheduler would build it, for the sample ticks. *)
Definition sample_Kid_new (kx ky : Q) (aggression : Z) : Kid :=
  {| kid_bounds := {| x := kx; y := ky; width := 24; height := 24 |};
     aggressionLevel := aggression; state := seeking; carriedBook := None;
     dropBookTimer := 0 |}.

(** Entities that stand still during the tick. *)
Definition idle (deltaTime : Q) (s : PlayingState) : PlayingState := s.

Definition sample_random : Random :=
  {| rval := 1 # 2; rval_range := eq_refl |}.

(** One red book on the floor next to the player, who stands next to a
    red shelf with a free slot. *)
Definition floor_book_by_shelf (chaos : Q) (xp0 : Z) : PlayingState :=
  {| gameData := sample_gameData chaos xp0;
     player := Some (sample_player []);
     kids := [];
     books := [ sample_book 110 160 red false false ];
     shelves := [ {| shelf_bounds :=
                       {| x := 100; y := 100; width := 64; height := 32 |};
                     shelf_color := red; capacity := 6; shelf_books := [] |} ];
     particles := []; particlePool := [];
     kidSpawnTimer := 10; kidSpawnInterval := 10; maxKids := 3;
     stateManager := []; audio := [] |}.

(** The player carries two books and has one free slot; two kids within
    snatch range carry a book each. *)
Definition two_kids_in_range : PlayingState :=
  {| gameData := sample_gameData 20 0;
     player := Some (sample_player [2; 3]%nat);
     kids := [ sample_kid 120 150 (Some 0%nat);
               sample_kid 80 160 (Some 1%nat) ];
     books := [ sample_book 120 150 blue true false;
                sample_book 80 160 green true false;
                sample_book 100 150 red true false;
                sample_book 100 150 red true false ];
     shelves := [];
     particles := []; particlePool := [];
     kidSpawnTimer := 10; kidSpawnInterval := 10; maxKids := 3;
     stateManager := []; audio := [] |}.

(** A state with a player and the given progress, for [awardXP]. *)
Definition progress_state (xp0 next level : Z) : PlayingState :=
  {| gameData :=
       {| chaosLevel := 0; maxChaos := 100; playerLevel := level; xp := xp0;
          xpToNext := next; elapsedTime := 0; targetTime := 1800;
          isPaused := false; booksCollected := 0; booksShelved := 0;
          kidsRepelled := 0 |};
     player := Some (sample_player []);
     kids := []; books := []; shelves := [];
     particles := []; particlePool := [];
     kidSpawnTimer := 10; kidSpawnInterval := 10; maxKids := 3;
     stateManager := []; audio := [] |}.

(** No book on the floor and a chaos level of 10. *)
Definition clear_floor_chaos_10 : PlayingState :=
  set_gameData (with_chaosLevel 10 (gameData two_kids_in_range))
    two_kids_in_range.

(** Two books on the floor, away from the player, who has no dampening. *)
Definition two_floor_books : PlayingState :=
  {| gameData := sample_gameData 7 0;
     player := Some (sample_player []);
     kids := [];
     books := [ sample_book 900 700 red false false;
                sample_book 40 900 blue false false;
                sample_book 0 0 green false true ];
     shelves := [];
     particles := []; particlePool := [];
     kidSpawnTimer := 10; kidSpawnInterval := 10; maxKids := 3;
     stateManager := []; audio := [] |}.

(** A state of the spawn scheduler: elapsed time, timer and kids. *)
Definition scheduler_state (elapsed timer : Q) (ks : list Kid)
  : PlayingState :=
  {| gameData :=
       {| chaosLevel := 0; maxChaos := 100; playerLevel := 1; xp := 0;
          xpToNext := 100; elapsedTime := elapsed; targetTime := 1800;
          isPaused := false; booksCollected := 0; booksShelved := 0;
          kidsRepelled := 0 |};
     player := Some (sample_player []);
     kids := ks; books := []; shelves := [];
     particles := []; particlePool := [];
     kidSpawnTimer := timer; kidSpawnInterval := 10; maxKids := 3;
     stateManager := []; audio := [] |}.

(** Time runs out in a tick whose chaos update would fill the meter. *)
Definition time_up_at_max_chaos : PlayingState :=
  {| gameData :=
       {| chaosLevel := 99.95; maxChaos := 100; playerLevel := 1; xp := 0;
          xpToNext := 100; elapsedTime := 1799.5; targetTime := 1800;
          isPaused := false; booksCollected := 0; booksShelved := 0;
          kidsRepelled := 0 |};
     player := Some (sample_player []);
     kids := [];
     books := [ sample_book 500 500 red false false ];
     shelves := [];
     particles := []; particlePool := [];
     kidSpawnTimer := 10; kidSpawnInterval := 10; maxKids := 3;
     stateManager := []; audio := [] |}.

(** ** The object pool *)

Section ObjectPool.

(** The pooled objects, the state the factory closure works on, and the
    factory itself, [creationFunc]: a call returns the new object and the
    state it leaves. *)
Variable T : Type.
Variable F : Type.
Variable factory : F -> T * F.

(** [constructor(creationFunc, initialSize)]: [initialSize] calls of the
    factory, each pushed on [this.pool].  The pool is a stack; as for the
    particle pool above, its top is the head of the list. *)
Fixpoint ObjectPool_fill (initialSize : nat) (pool : list T) (f : F)
  : list T * F :=
  match initialSize with
  | O => (pool, f)
  | S n => let (obj, f') := factory f in ObjectPool_fill n (obj :: pool) f'
  end.

Definition ObjectPool_new (initialSize : nat) (f : F) : list T * F :=
  ObjectPool_fill initialSize [] f.

(** [get()]: pops the top of the pool, or calls the factory when the pool
    is empty. *)
Definition ObjectPool_get (pool : list T) (f : F) : T * list T * F :=
  match pool with
  | obj :: rest => (obj, rest, f)
  | [] => let (obj, f') := factory f in (obj, [], f')
  end.

(** [release(obj)]. *)
Definition ObjectPool_release (obj : T) (pool : list T) : list T :=
  obj :: pool.

(** [n] calls of [get()] in a row, with the objects in the order they were
    handed out. *)
Fixpoint ObjectPool_get_n (n : nat) (pool : list T) (f : F)
  : list T * list T * F :=
  match n with
  | O => ([], pool, f)
  | S n' =>
      let '(obj, pool1, f1) := ObjectPool_get pool f in
      let '(objs, pool2, f2) := ObjectPool_get_n n' pool1 f1 in
      (obj :: objs, pool2, f2)
  end.

(** [release] of every object of a list, first to last. *)
Definition ObjectPool_release_all (objs : list T) (pool : list T) : list T :=
  fold_left (fun p obj => ObjectPool_release obj p) objs pool.

(** The objects the first [n] factory calls from state [f] build, first
    to last, and the state they leave. *)
Fixpoint built (n : nat) (f : F) : list T * F :=
  match n with
  | O => ([], f)
  | S n' =>
      let (obj, f') := factory f in
      let (objs, f'') := built n' f' in (obj :: objs, f'')
  end.

End ObjectPool.

Arguments ObjectPool_fill {T F} factory initialSize pool f.
Arguments ObjectPool_new {T F} factory initialSize f.
Arguments ObjectPool_get {T F} factory pool f.
Arguments ObjectPool_release {T} obj pool.
Arguments ObjectPool_get_n {T F} factory n pool f.
Arguments ObjectPool_release_all {T} objs pool.
Arguments built {T F} factory n f.

(** ** Rendering: culling and drawing order *)

(** [isInViewport(entity, viewX, viewY, viewWidth, viewHeight)]. *)
Definition isInViewport (entity : Bounds) (viewX viewY viewWidth viewHeight : Q)
  : bool :=
  Qltb (x entity) (viewX + viewWidth) &&
  Qltb viewX (x entity + width entity) &&
  Qltb (y entity) (viewY + viewHeight) &&
  Qltb viewY (y entity + height entity).

(** A box grown by [distance] on every side. *)
Definition grown (b : Bounds) (distance : Q) : Bounds :=
  {| x := x b - distance; y := y b - distance;
     width := width b + 2 * distance; height := height b + 2 * distance |}.

(** What [render] can draw on the entity layer. *)
Inductive Entity :=
| shelf_entity (sh : Shelf)
| book_entity (b : Book)
| kid_entity (k : Kid)
| player_entity (p : Player).

Definition entity_bounds (e : Entity) : Bounds :=
  match e with
  | shelf_entity sh => shelf_bounds sh
  | book_entity b => book_bounds b
  | kid_entity k => kid_bounds k
  | player_entity p => player_bounds p
  end.

(** [a.y + a.height], the key of the sort. *)
Definition bottom (e : Entity) : Q :=
  y (entity_bounds e) + height (entity_bounds e).

(** [[...this.shelves, ...this.books.filter(..), ...this.kids,
    this.player]]; a [null] player is dropped by the [entity &&] of the
    filter that follows. *)
Definition renderables (s : PlayingState) : list Entity :=
  map shelf_entity (shelves s) ++
  map book_entity (List.filter onFloor (books s)) ++
  map kid_entity (kids s) ++
  match player s with
  | Some p => [player_entity p]
  | None => []
  end.

(** [renderables.sort((a, b) => (a.y + a.height) - (b.y + b.height))].
    The sort of an array is stable, so its result is the one of a stable
    insertion sort on the keys. *)
Fixpoint insertByBottom (e : Entity) (l : list Entity) : list Entity :=
  match l with
  | [] => [e]
  | h :: t =>
      if Qle_bool (bottom e) (bottom h) then e :: h :: t
      else h :: insertByBottom e t
  end.

Fixpoint sortByBottom (l : list Entity) : list Entity :=
  match l with
  | [] => []
  | e :: t => insertByBottom e (sortByBottom t)
  end.

(** The entities [render] hands to [renderer.addToLayer('entities', ..)],
    in call order.  The four numbers are the camera's viewport:
    [getViewportX()], [getViewportY()], and [viewportWidth] and
    [viewportHeight] divided by [zoom]. *)
Definition renderEntities (viewX viewY viewWidth viewHeight : Q)
    (s : PlayingState) : list Entity :=
  sortByBottom
    (List.filter
       (fun e => isInViewport (entity_bounds e) viewX viewY viewWidth
                   viewHeight)
       (renderables s)).

Definition bottom_le (a b : Entity) : Prop := bottom a <= bottom b.

(** ** The HUD: timer and chaos meter *)

(** [Math.max(0, gameData.targetTime - gameData.elapsedTime)]. *)
Definition timeRemaining (g : GameData) : Q :=
  Qmax 0 (targetTime g - elapsedTime g).

(** Truncation towards zero, and with it the [%] of JavaScript, whose
    result has the sign of the dividend. *)
Definition Qtrunc (q : Q) : Z :=
  if Qle_bool 0 q then Qfloor q else Qceiling q.

Definition jsRemainder (a b : Q) : Q := a - b * inject_Z (Qtrunc (a / b)).

(** [Math.floor(timeRemaining / 60)] and [Math.floor(timeRemaining % 60)]. *)
Definition timerMinutes (g : GameData) : Z := Qfloor (timeRemaining g / 60).

Definition timerSeconds (g : GameData) : Z :=
  Qfloor (jsRemainder (timeRemaining g) 60).

(** [gameData.chaosLevel / gameData.maxChaos], the width
    [meterWidth * chaosPercent] of the filled part of the 300 pixel bar,
    and the number in the label [CHAOS: n%]. *)
Definition chaosPercent (g : GameData) : Q := chaosLevel g / maxChaos g.

Definition chaosFillWidth (g : GameData) : Q := 300 * chaosPercent g.

Definition chaosLabel (g : GameData) : Z := Qfloor (chaosLevel g).

Definition chaosColor (g : GameData) : string :=
  if Qltb 0.8 (chaosPercent g) then "#ff0000"
  else if Qltb 0.6 (chaosPercent g) then "#ff8800"
  else if Qltb 0.4 (chaosPercent g) then "#ffff00"
  else "#00ff00".

Definition Qsum (l : list Q) : Q := fold_right Qplus 0 l.

(** ** Experience over a whole run *)

(** The XP spent on the level-ups from level 1 up to [level]: the
    thresholds of the levels below it. *)
Definition thresholdSum (level : Z) : Z :=
  fold_right Z.add 0%Z
    (map (fun k => xpThreshold (Z.of_nat k)) (seq 1 (Z.to_nat (level - 1)))).

(** All the XP earned so far: what the level-ups used up, and [xp]. *)
Definition lifetimeXP (s : PlayingState) : Z :=
  (thresholdSum (playerLevel (gameData s)) + xp (gameData s))%Z.

(** Upgrade pushes made so far, less the levels they stand for. *)
Definition pushesOwed (s : PlayingState) : Z :=
  (Z.of_nat (upgradePushes (stateManager s)) - playerLevel (gameData s))%Z.

(** ** Several ticks of the spawn scheduler *)

Section SchedulerRun.

Variable Kid_new : Q -> Q -> Z -> Kid.

(** What a tick of [update] does for the scheduler: the time advances,
    then [updateKidSpawning] runs, with the tick's [deltaTime] and random
    number. *)
Definition schedulerTick (s : PlayingState) (input : Q * Random)
  : PlayingState :=
  updateKidSpawning Kid_new (fst input) (snd input)
    (advanceTime (fst input) s).

Definition schedulerRun (inputs : list (Q * Random)) (s : PlayingState)
  : PlayingState :=
  fold_left schedulerTick inputs s.

End SchedulerRun.

(** [maxKids] is one of the three values of the ramp, and a value above 3
    only once the elapsed time allows it. *)
Definition capConsistent (s : PlayingState) : Prop :=
  let minutes := elapsedTime (gameData s) / 60 in
  maxKids s = 3%Z \/
  (maxKids s = 5%Z /\ 2 < minutes) \/
  (maxKids s = 10%Z /\ 5 < minutes).

(** ** Invariants of the proximity passes *)

(** The player holds no more books than [carrySlots]. *)
Definition withinCapacity (s : PlayingState) : Prop :=
  match player s with
  | Some p => (Z.of_nat (length (carriedBooks p)) <= carrySlots (stats p))%Z
  | None => True
  end.

Definition keeps_capacity (s s' : PlayingState) : Prop :=
  withinCapacity s -> withinCapacity s'.

(** What the capacity test reads of a player. *)
Definition load (s : PlayingState) : option (list nat * Z) :=
  (fun p => (carriedBooks p, carrySlots (stats p))) <$> player s.

(** The books in the player's hands that [booksCollected] does not
    account for. *)
Definition uncounted (s : PlayingState) : Z :=
  (Z.of_nat (length (carriedByPlayer s)) - booksCollected (gameData s))%Z.

Definition same_uncounted (s s' : PlayingState) : Prop :=
  uncounted s' = uncounted s.

(** The lists that hold references to books are the same. *)
Definition same_owners (s s' : PlayingState) : Prop :=
  books s' = books s /\ carriedByPlayer s' = carriedByPlayer s /\
  kids s' = kids s /\ shelves s' = shelves s.

Definition same_references (s s' : PlayingState) : Prop :=
  forall j, references j s' = references j s.

(** The number of slots taken on all shelves. *)
Definition onShelves (s : PlayingState) : nat :=
  list_sum (map (fun sh => length (shelf_books sh)) (shelves s)).

(** Books in the player's hands or counted as shelved, and books on the
    shelves that [booksShelved] does not account for. *)
Definition ledger (s : PlayingState) : Z * Z :=
  ((Z.of_nat (length (carriedByPlayer s)) + booksShelved (gameData s))%Z,
   (Z.of_nat (onShelves s) - booksShelved (gameData s))%Z).

Definition same_ledger (s s' : PlayingState) : Prop := ledger s' = ledger s.

(** No shelf holds more books than its [capacity]. *)
Definition shelvesWithin (s : PlayingState) : Prop :=
  Forall (fun sh => (length (shelf_books sh) <= capacity sh)%nat) (shelves s).

Definition keeps_shelves (s s' : PlayingState) : Prop :=
  shelvesWithin s -> shelvesWithin s'.

(** The state manager log of [s'] is the one of [s] followed by
    upgrade-selection pushes only. *)
Definition only_pushes (s s' : PlayingState) : Prop :=
  exists l, stateManager s' = stateManager s ++ l /\
            Forall (fun c => isUpgradePush c = true) l.

(** ** A player who has taken upgrades *)

(** Stats after upgrades: half the chaos accrual, one and a half times
    the XP. *)
Definition upgraded_stats : Stats :=
  {| pickupRadius := 1.5; returnRadius := 2; carrySlots := 3;
     stamina := 40; maxStamina := 100; chaosDampening := 50;
     xpMultiplier := 1.5 |}.

(** The state with the player's stats replaced by [upgraded_stats]. *)
Definition upgrade_player (s : PlayingState) : PlayingState :=
  match player s with
  | Some p => set_player (Some (set_stats upgraded_stats p)) s
  | None => s
  end.

(** ** The arithmetic of doubles *)

(** A power with a natural exponent. *)
Fixpoint Qpow (a : Q) (n : nat) : Q :=
  match n with
  | O => 1
  | S n' => a * Qpow a n'
  end.

Section Rounded.

(** JavaScript numbers are doubles: what an arithmetic operation stores is
    its exact result rounded.  [fl] is that rounding.  A particle's [age]
    and the spawn timer are accumulated over many ticks, so their
    roundings add up; the functions that accumulate them are given here
    once more, with every addition, subtraction, multiplication and
    division of the source rounded.  With the identity for [fl] they are
    the functions above. *)
Variable fl : Q -> Q.

(** The body of the filter of [updateParticles]: [particle.age +=
    deltaTime], then [particle.y += particle.vy * deltaTime] and
    [particle.vy += 100 * deltaTime]. *)
Definition particle_advance_fl (deltaTime : Q) (p : Particle) : Particle :=
  {| ptype := ptype p;
     particle_x := particle_x p;
     particle_y := match ptype p with
                   | xp_text => fl (particle_y p + fl (vy p * deltaTime))
                   end;
     text := text p;
     vy := match ptype p with
           | xp_text => fl (vy p + fl (100 * deltaTime))
           end;
     lifetime := lifetime p;
     age := fl (age p + deltaTime) |}.

Definition updateParticles_fl (deltaTime : Q) (s : PlayingState)
  : PlayingState :=
  let aged := map (particle_advance_fl deltaTime) (particles s) in
  set_particles
    (List.filter (fun p => negb (expired p)) aged)
    (fold_left (fun pool p => pool_release p pool)
       (List.filter expired aged) (particlePool s))
    s.

(** [updateParticles] once for every [deltaTime] of the list, in order. *)
Definition tickParticles_fl (deltaTimes : list Q) (s : PlayingState)
  : PlayingState :=
  fold_left (fun s deltaTime => updateParticles_fl deltaTime s) deltaTimes s.

(** The active list after several ticks, from the active list alone. *)
Definition survivors_fl (deltaTimes : list Q) (l : list Particle)
  : list Particle :=
  fold_left
    (fun l deltaTime =>
       List.filter (fun p => negb (expired p))
         (map (particle_advance_fl deltaTime) l))
    deltaTimes l.

(** [gameData.elapsedTime += deltaTime]. *)
Definition advanceTime_fl (deltaTime : Q) (s : PlayingState)
  : PlayingState :=
  set_gameData
    (with_elapsedTime (fl (elapsedTime (gameData s) + deltaTime))
       (gameData s)) s.

Definition ramp_fl (s : PlayingState) : PlayingState :=
  let minutes := fl (elapsedTime (gameData s) / 60) in
  if Qltb 5 minutes then set_maxKids 10 s
  else if Qltb 2 minutes then set_maxKids 5 s
  else s.

Variable Kid_new : Q -> Q -> Z -> Kid.

(** [updateKidSpawning], with [minutes] and the timer rounded.  The index
    of the spawn point is left exact: the product of [Math.random()] with
    the number of spawn points, 4, is a scaling by a power of two, which
    doubles do without rounding. *)
Definition updateKidSpawning_fl (deltaTime : Q) (rnd : Random)
    (s : PlayingState) : PlayingState :=
  let minutes := fl (elapsedTime (gameData s) / 60) in
  let s1 := ramp_fl s in
  if (maxKids s1 <=? Z.of_nat (length (kids s1)))%Z then s1
  else
    let s2 := set_kidSpawnTimer (fl (kidSpawnTimer s1 - deltaTime)) s1 in
    if Qle_bool (kidSpawnTimer s2) 0 then
      match spawnPoints !! randomIndex rnd (length spawnPoints) with
      | Some spawnPoint =>
          let kid :=
            Kid_new (fst spawnPoint) (snd spawnPoint)
              (aggressionFor minutes) in
          set_kidSpawnTimer (kidSpawnInterval s2)
            (set_kids (kids s2 ++ [kid]) s2)
      | None => s2
      end
    else s2.

(** What a tick of [update] does for the scheduler: the time advances,
    then [updateKidSpawning] runs. *)
Definition schedulerTick_fl (s : PlayingState) (input : Q * Random)
  : PlayingState :=
  updateKidSpawning_fl (fst input) (snd input)
    (advanceTime_fl (fst input) s).

Definition schedulerRun_fl (inputs : list (Q * Random)) (s : PlayingState)
  : PlayingState :=
  fold_left schedulerTick_fl inputs s.

End Rounded.

(** A rounding that loses a thousandth of the result at every operation,
    far more than a double does. *)
Definition lossy (v : Q) : Q := (999 # 1000) * v.

(** ** What the pickup pass takes *)







(** ** What the shelving pass takes *)




(** The player holds red book 1 and stands next to a red shelf; red book
    0 lies on the floor within reach. *)
Definition older_book_in_hand : PlayingState :=
  {| gameData := sample_gameData 0 0;
     player := Some (sample_player [1%nat]);
     kids := [];
     books := [ sample_book 110 160 red false false;
                sample_book 100 150 red true false ];
     shelves := [ {| shelf_bounds :=
                       {| x := 100; y := 100; width := 64; height := 32 |};
                     shelf_color := red; capacity := 6; shelf_books := [] |} ];
     particles := []; particlePool := [];
     kidSpawnTimer := 10; kidSpawnInterval := 10; maxKids := 3;
     stateManager := []; audio := [] |}.



(** * Properties *)


(** ** The level-up loop *)

Lemma xpThreshold_nonneg (level : Z) : (0 <= xpThreshold level)%Z.
Proof.
  unfold xpThreshold.
  assert (H : 0 <= 100 * 1.45 ^ (level - 1)).
  { apply Qmult_le_0_compat; [discriminate|].
    apply Qpower_0_le. discriminate. }
  apply Qfloor_resp_le in H. exact H.
Qed.

Lemma xpThreshold_ge_100 (level : Z) :
  (1 <= level)%Z -> (100 <= xpThreshold level)%Z.
Proof.
  intros Hl. unfold xpThreshold.
  assert (H1 : 1 <= 1.45 ^ (level - 1)).
  { apply Qpower_1_le; [discriminate | lia]. }
  assert (H : 100 <= 100 * 1.45 ^ (level - 1)).
  { revert H1. generalize (1.45 ^ (level - 1)). intros p Hp. lra. }
  apply Qfloor_resp_le in H. exact H.
Qed.

Lemma levelUp_gameData (s : PlayingState) :
  gameData (levelUp s) =
  with_progress (playerLevel (gameData s) + 1)
    (xp (gameData s) - xpToNext (gameData s))
    (xpThreshold (playerLevel (gameData s) + 1)) (gameData s).
Proof. destruct s as [? pl ? ? ? ? ? ? ? ? ? ?]; destruct pl; reflexivity. Qed.

Lemma levelUp_threshold_ok (s : PlayingState) : threshold_ok (levelUp s).
Proof. unfold threshold_ok. rewrite levelUp_gameData. reflexivity. Qed.

Lemma levelUp_bound_decreases (s : PlayingState) :
  threshold_ok s -> levelUpGuard s = true ->
  (levelUpBound (levelUp s) < levelUpBound s)%nat.
Proof.
  unfold threshold_ok, levelUpGuard, levelUpBound.
  rewrite levelUp_gameData. simpl. intros Hok Hg.
  apply Z.leb_le in Hg.
  pose proof (xpThreshold_nonneg (playerLevel (gameData s))) as H0.
  destruct (Z_le_gt_dec 1 (playerLevel (gameData s))) as [Hl | Hl].
  - pose proof (xpThreshold_ge_100 _ Hl). lia.
  - lia.
Qed.

Lemma levelUpIter_done (n : nat) : forall s,
  threshold_ok s -> (levelUpBound s <= n)%nat ->
  levelUpGuard (levelUpIter n s) = false.
Proof.
  induction n as [|n IH]; intros s Hok Hb; simpl.
  - destruct (levelUpGuard s) eqn:Hg; [|reflexivity].
    pose proof (levelUp_bound_decreases s Hok Hg). lia.
  - destruct (levelUpGuard s) eqn:Hg; [|exact Hg].
    apply IH; [apply levelUp_threshold_ok|].
    pose proof (levelUp_bound_decreases s Hok Hg). lia.
Qed.

Lemma levelUpIter_stable (n : nat) : forall s m,
  levelUpGuard (levelUpIter n s) = false -> (n <= m)%nat ->
  levelUpIter m s = levelUpIter n s.
Proof.
  induction n as [|n IH]; intros s m Hd Hm; simpl in *.
  - destruct m; simpl; [reflexivity | now rewrite Hd].
  - destruct m as [|m]; [lia|]. simpl.
    destruct (levelUpGuard s) eqn:Hg; [|reflexivity].
    apply IH; [exact Hd | lia].
Qed.

Lemma levelUpLoop_done (s : PlayingState) :
  levelUpGuard (levelUpLoop s) = false.
Proof.
  unfold levelUpLoop. simpl.
  destruct (levelUpGuard s) eqn:Hg; [|exact Hg].
  apply levelUpIter_done; [apply levelUp_threshold_ok | lia].
Qed.

(** The loop satisfies the equation of [while (xp >= xpToNext) { ... }]. *)
Lemma levelUpIter_S (n : nat) (s : PlayingState) :
  levelUpIter (S n) s =
  if levelUpGuard s then levelUpIter n (levelUp s) else s.
Proof. reflexivity. Qed.

Lemma levelUpLoop_unfold (s : PlayingState) :
  levelUpLoop s =
  if levelUpGuard s then levelUpLoop (levelUp s) else s.
Proof.
  unfold levelUpLoop at 1. rewrite levelUpIter_S.
  destruct (levelUpGuard s) eqn:Hg; [|reflexivity].
  pose proof (levelUpLoop_done (levelUp s)) as Hd.
  unfold levelUpLoop in *.
  set (a := levelUpBound (levelUp s)).
  set (b := S (levelUpBound (levelUp (levelUp s)))) in *.
  assert (Ha : levelUpGuard (levelUpIter a (levelUp s)) = false).
  { apply levelUpIter_done; [apply levelUp_threshold_ok | subst a; lia]. }
  destruct (Nat.le_ge_cases a b) as [Hab | Hab].
  - symmetry. apply levelUpIter_stable; assumption.
  - apply levelUpIter_stable; assumption.
Qed.


(** ** What [gainXP] and [levelUp] touch *)

Lemma gainXP_gameData (amount : Q) (s : PlayingState) :
  gameData (gainXP amount s) =
  with_progress (playerLevel (gameData s))
    (xp (gameData s) + Qfloor (amount * xpMultiplierOf s))
    (xpToNext (gameData s)) (gameData s).
Proof.
  destruct s as [? pl ? ? ? ? pool ? ? ? ? ?].
  destruct pl; destruct pool; reflexivity.
Qed.

Lemma gainXP_player (amount : Q) (s : PlayingState) :
  player (gainXP amount s) = player s.
Proof.
  destruct s as [? pl ? ? ? ? pool ? ? ? ? ?].
  destruct pl; destruct pool; reflexivity.
Qed.

Lemma gainXP_stateManager (amount : Q) (s : PlayingState) :
  stateManager (gainXP amount s) = stateManager s.
Proof.
  destruct s as [? pl ? ? ? ? pool ? ? ? ? ?].
  destruct pl; destruct pool; reflexivity.
Qed.

Lemma levelUp_stateManager (s : PlayingState) :
  stateManager (levelUp s) =
  stateManager s ++ [pushState "upgradeSelection"].
Proof. destruct s as [? pl ? ? ? ? ? ? ? ? ? ?]; destruct pl; reflexivity. Qed.

Lemma levelUp_player (s : PlayingState) :
  player (levelUp s) = refill <$> player s.
Proof. destruct s as [? pl ? ? ? ? ? ? ? ? ? ?]; destruct pl; reflexivity. Qed.

Lemma xpMultiplierOf_1 (s : PlayingState) (p : Player) :
  player s = Some p -> getXPMultiplier p == 1 -> xpMultiplierOf s == 1.
Proof.
  intros Hp Hm. unfold xpMultiplierOf. rewrite Hp.
  destruct (Qeq_bool (getXPMultiplier p) 0) eqn:E; [reflexivity | exact Hm].
Qed.

(** C6. From [xp = 50], [xpToNext = 100], [playerLevel = 1] and a player
    whose XP multiplier is 1, [awardXP(80)] leaves [xp = 30],
    [playerLevel = 2], [xpToNext = floor(100 * 1.45^1) = 145], the player's
    stamina at its maximum, and makes exactly one
    [pushState('upgradeSelection')] call. *)
Theorem awardXP_80_from_50 (s : PlayingState) (p : Player) :
  player s = Some p ->
  getXPMultiplier p == 1 ->
  xp (gameData s) = 50%Z ->
  xpToNext (gameData s) = 100%Z ->
  playerLevel (gameData s) = 1%Z ->
  let s' := awardXP 80 s in
  xp (gameData s') = 30%Z /\
  playerLevel (gameData s') = 2%Z /\
  xpToNext (gameData s') = 145%Z /\
  Qfloor (100 * 1.45 ^ 1) = 145%Z /\
  player s' = Some (refill p) /\
  stamina (stats (refill p)) = maxStamina (stats p) /\
  maxStamina (stats (refill p)) = maxStamina (stats p) /\
  stateManager s' = stateManager s ++ [pushState "upgradeSelection"] /\
  upgradePushes (stateManager s') = S (upgradePushes (stateManager s)).
Proof.
  intros Hp Hm Hxp Hnext Hlvl s'.
  assert (Hamt : Qfloor (80 * xpMultiplierOf s) = 80%Z).
  { rewrite (Qfloor_comp _ 80); [reflexivity|].
    rewrite (xpMultiplierOf_1 s p Hp Hm). reflexivity. }
  assert (Hs' : s' = levelUp (gainXP 80 s)).
  { subst s'. unfold awardXP.
    rewrite levelUpLoop_unfold.
    unfold levelUpGuard at 1. rewrite gainXP_gameData.
    cbn [xp xpToNext with_progress]. rewrite Hamt, Hxp, Hnext.
    change (100 <=? 50 + 80)%Z with true. cbv iota.
    rewrite levelUpLoop_unfold.
    unfold levelUpGuard. rewrite levelUp_gameData, gainXP_gameData.
    cbn [xp xpToNext playerLevel with_progress].
    rewrite Hamt, Hxp, Hnext, Hlvl. reflexivity. }
  rewrite Hs', levelUp_gameData, gainXP_gameData, levelUp_player,
    gainXP_player, levelUp_stateManager, gainXP_stateManager, Hp.
  cbn [xp xpToNext playerLevel with_progress].
  rewrite Hamt, Hxp, Hnext, Hlvl.
  repeat split; try reflexivity.
  unfold upgradePushes. rewrite List.filter_app, length_app. simpl. lia.
Qed.

Lemma awardXP_80_from_50_witness :
  let s' := awardXP 80 (progress_state 50 100 1) in
  xp (gameData s') = 30%Z /\ playerLevel (gameData s') = 2%Z /\
  xpToNext (gameData s') = 145%Z /\
  upgradePushes (stateManager s') = 1%nat.
Proof.
  destruct (awardXP_80_from_50 (progress_state 50 100 1) (sample_player []))
    as (H1 & H2 & H3 & _ & _ & _ & _ & _ & H4);
    [reflexivity | reflexivity | reflexivity | reflexivity | reflexivity |].
  repeat split; assumption.
Defined.

(** C7. After every [awardXP] call [xp < xpToNext].  When the applied
    amount crosses two level thresholds, the loop body runs exactly twice,
    first for the level the player had and then for the next one (1 to 2,
    then 2 to 3), and exactly two [pushState('upgradeSelection')] calls
    are made. *)
Theorem awardXP_two_levels :
  (forall (amount : Q) (s : PlayingState),
      (xp (gameData (awardXP amount s))
       < xpToNext (gameData (awardXP amount s)))%Z) /\
  (forall (amount : Q) (s : PlayingState),
      let s0 := gainXP amount s in
      let level := playerLevel (gameData s) in
      let rest := (xp (gameData s0) - xpToNext (gameData s))%Z in
      (xpToNext (gameData s) <= xp (gameData s0))%Z ->
      (xpThreshold (level + 1) <= rest)%Z ->
      (rest - xpThreshold (level + 1) < xpThreshold (level + 2))%Z ->
      awardXP amount s = levelUp (levelUp s0) /\
      playerLevel (gameData (levelUp s0)) = (level + 1)%Z /\
      playerLevel (gameData (awardXP amount s)) = (level + 2)%Z /\
      xp (gameData (awardXP amount s)) = (rest - xpThreshold (level + 1))%Z /\
      xpToNext (gameData (awardXP amount s)) = xpThreshold (level + 2) /\
      stateManager (awardXP amount s) =
        stateManager s ++ [pushState "upgradeSelection";
                           pushState "upgradeSelection"] /\
      upgradePushes (stateManager (awardXP amount s)) =
        (upgradePushes (stateManager s) + 2)%nat).
Proof.
  split.
  - intros amount s. unfold awardXP.
    pose proof (levelUpLoop_done (gainXP amount s)) as Hd.
    unfold levelUpGuard in Hd. apply Z.leb_gt in Hd. exact Hd.
  - intros amount s s0 level rest H1 H2 H3.
    assert (Hnext : xpToNext (gameData s0) = xpToNext (gameData s)).
    { subst s0. rewrite gainXP_gameData. reflexivity. }
    assert (Hlvl : playerLevel (gameData s0) = level).
    { subst s0. rewrite gainXP_gameData. reflexivity. }
    assert (Hs' : awardXP amount s = levelUp (levelUp s0)).
    { unfold awardXP. fold s0.
      rewrite levelUpLoop_unfold.
      unfold levelUpGuard at 1. rewrite Hnext.
      apply Z.leb_le in H1. rewrite H1.
      rewrite levelUpLoop_unfold.
      unfold levelUpGuard at 1. rewrite levelUp_gameData.
      cbn [xp xpToNext playerLevel with_progress]. rewrite Hnext, Hlvl.
      fold rest. apply Z.leb_le in H2. rewrite H2.
      rewrite levelUpLoop_unfold.
      unfold levelUpGuard. rewrite !levelUp_gameData.
      cbn [xp xpToNext playerLevel with_progress]. rewrite Hnext, Hlvl.
      fold rest. replace (level + 1 + 1)%Z with (level + 2)%Z by lia.
      apply Z.leb_gt in H3. rewrite H3. reflexivity. }
    rewrite Hs', !levelUp_gameData, !levelUp_stateManager.
    cbn [xp xpToNext playerLevel with_progress]. rewrite Hnext, Hlvl.
    fold rest. replace (level + 1 + 1)%Z with (level + 2)%Z by lia.
    subst s0. rewrite gainXP_stateManager, <- app_assoc.
    repeat split; try reflexivity.
    unfold upgradePushes. rewrite List.filter_app, length_app. reflexivity.
Qed.

Lemma awardXP_two_levels_witness :
  let s' := awardXP 250 (progress_state 0 100 1) in
  playerLevel (gameData (levelUp (gainXP 250 (progress_state 0 100 1))))
    = 2%Z /\
  playerLevel (gameData s') = 3%Z /\
  xp (gameData s') = 5%Z /\ xpToNext (gameData s') = 210%Z /\
  upgradePushes (stateManager s') = 2%nat /\
  (xp (gameData s') < xpToNext (gameData s'))%Z.
Proof.
  destruct awardXP_two_levels as [Hlt Htwo].
  destruct (Htwo 250 (progress_state 0 100 1))
    as (_ & H1 & H2 & H3 & H4 & _ & H5);
    [vm_compute; discriminate | vm_compute; discriminate
    | vm_compute; reflexivity |].
  exact (conj H1 (conj H2 (conj H3 (conj H4 (conj H5 (Hlt _ _)))))).
Defined.

(** ** Frames of [awardXP] *)

Lemma levelUpIter_frame {A : Type} (f : PlayingState -> A) :
  (forall s, f (levelUp s) = f s) ->
  forall n s, f (levelUpIter n s) = f s.
Proof.
  intros Hf n. induction n as [|n IH]; intros s; simpl; [reflexivity|].
  destruct (levelUpGuard s); [|reflexivity].
  rewrite IH. apply Hf.
Qed.

Lemma awardXP_frame {A : Type} (f : PlayingState -> A) :
  (forall s, f (levelUp s) = f s) ->
  (forall amount s, f (gainXP amount s) = f s) ->
  forall amount s, f (awardXP amount s) = f s.
Proof.
  intros Hl Hg amount s. unfold awardXP, levelUpLoop.
  rewrite levelUpIter_frame by exact Hl. apply Hg.
Qed.

Lemma awardXP_chaosLevel (amount : Q) (s : PlayingState) :
  chaosLevel (gameData (awardXP amount s)) = chaosLevel (gameData s).
Proof.
  apply (awardXP_frame (fun s => chaosLevel (gameData s))).
  - intros s0. now rewrite levelUp_gameData.
  - intros a s0. now rewrite gainXP_gameData.
Qed.

Lemma awardXP_maxChaos (amount : Q) (s : PlayingState) :
  maxChaos (gameData (awardXP amount s)) = maxChaos (gameData s).
Proof.
  apply (awardXP_frame (fun s => maxChaos (gameData s))).
  - intros s0. now rewrite levelUp_gameData.
  - intros a s0. now rewrite gainXP_gameData.
Qed.

(** ** Chaos never grows in a proximity pass *)

Lemma chaos_noninc_refl (s : PlayingState) : chaos_noninc s s.
Proof. split; [reflexivity | apply Qle_refl]. Qed.

Lemma chaos_noninc_trans (s1 s2 s3 : PlayingState) :
  chaos_noninc s1 s2 -> chaos_noninc s2 s3 -> chaos_noninc s1 s3.
Proof.
  intros [H1 H2] [H3 H4]. split; [congruence | eapply Qle_trans; eassumption].
Qed.

Lemma chaos_noninc_same (s s' : PlayingState) :
  maxChaos (gameData s') = maxChaos (gameData s) ->
  chaosLevel (gameData s') = chaosLevel (gameData s) ->
  chaos_noninc s s'.
Proof. intros H1 H2. split; [exact H1 | rewrite H2; apply Qle_refl]. Qed.

Lemma awardXP_chaos (amount : Q) (s : PlayingState) :
  chaos_noninc s (awardXP amount s).
Proof.
  apply chaos_noninc_same; [apply awardXP_maxChaos | apply awardXP_chaosLevel].
Qed.

Lemma lowerChaos_chaos (delta : Q) (s : PlayingState) :
  0 <= delta -> chaos_noninc s (lowerChaos delta s).
Proof.
  intros Hd. split; [reflexivity|].
  change (chaosLevel (gameData (lowerChaos delta s)))
    with (chaosLevel (gameData s) - delta).
  lra.
Qed.

Lemma countCollected_chaos (s : PlayingState) :
  chaos_noninc s (countCollected s).
Proof. apply chaos_noninc_same; reflexivity. Qed.

Lemma countShelved_chaos (s : PlayingState) :
  chaos_noninc s (countShelved s).
Proof. apply chaos_noninc_same; reflexivity. Qed.

(** The statements that leave the game data, the player and the state
    manager log alone. *)

Lemma markHeld_same_core (book : nat) (s : PlayingState) :
  same_core s (markHeld book s).
Proof. repeat split. Qed.

Lemma markShelved_same_core (book : nat) (s : PlayingState) :
  same_core s (markShelved book s).
Proof. repeat split. Qed.

Lemma kidLosesBook_same_core (i : nat) (s : PlayingState) :
  same_core s (kidLosesBook i s).
Proof. repeat split. Qed.

Lemma kidFlees_same_core (i : nat) (s : PlayingState) :
  same_core s (kidFlees i s).
Proof. repeat split. Qed.

Lemma putShelf_same_core (i : nat) (sh : Shelf) (s : PlayingState) :
  same_core s (putShelf i sh s).
Proof. repeat split. Qed.

Lemma playPickupSound_same_core (s : PlayingState) :
  same_core s (playPickupSound s).
Proof. repeat split. Qed.

Lemma playShelfSound_same_core (s : PlayingState) :
  same_core s (playShelfSound s).
Proof. repeat split. Qed.

Create HintDb frames.
#[local] Hint Resolve markHeld_same_core markShelved_same_core
  kidLosesBook_same_core kidFlees_same_core putShelf_same_core
  playPickupSound_same_core playShelfSound_same_core : frames.

Lemma same_core_chaos (s s' : PlayingState) :
  same_core s s' -> chaos_noninc s s'.
Proof.
  intros (Hg & _ & _). apply chaos_noninc_same; now rewrite Hg.
Qed.

Lemma set_player_chaos (p : option Player) (s : PlayingState) :
  chaos_noninc s (set_player p s).
Proof. apply chaos_noninc_same; reflexivity. Qed.

(** Peels the statements of a visit one at a time, outermost first. *)
Ltac chaos_step :=
  lazymatch goal with
  | |- chaos_noninc _ (awardXP _ _) => apply awardXP_chaos
  | |- chaos_noninc _ (lowerChaos _ _) =>
      apply lowerChaos_chaos; discriminate
  | |- chaos_noninc _ (countCollected _) => apply countCollected_chaos
  | |- chaos_noninc _ (countShelved _) => apply countShelved_chaos
  | |- chaos_noninc _ (set_player _ _) => apply set_player_chaos
  | |- _ => apply same_core_chaos; auto with frames
  end.

Ltac chaos_chain :=
  lazymatch goal with
  | |- chaos_noninc ?s ?s => apply chaos_noninc_refl
  | |- chaos_noninc ?s (?f ?x) =>
      apply (chaos_noninc_trans s x (f x)); [ chaos_chain | chaos_step ]
  end.

Lemma fold_left_preorder {A : Type} (R : PlayingState -> PlayingState -> Prop)
    (f : PlayingState -> A -> PlayingState) :
  (forall s, R s s) ->
  (forall s1 s2 s3, R s1 s2 -> R s2 s3 -> R s1 s3) ->
  (forall s a, R s (f s a)) ->
  forall l s, R s (fold_left f l s).
Proof.
  intros Hrefl Htrans Hstep l. induction l as [|a l IH]; intros s; simpl.
  - apply Hrefl.
  - eapply Htrans; [apply Hstep | apply IH].
Qed.

Lemma pickupVisit_chaos (r cx cy : Q) (s : PlayingState) (i : nat) :
  chaos_noninc s (pickupVisit r cx cy s i).
Proof. unfold pickupVisit. repeat case_match; chaos_chain. Qed.

Lemma snatchVisit_chaos (r cx cy : Q) (s : PlayingState) (i : nat) :
  chaos_noninc s (snatchVisit r cx cy s i).
Proof. unfold snatchVisit. repeat case_match; chaos_chain. Qed.

Lemma shelveVisit_chaos (r : Q) (s : PlayingState) (i : nat) :
  chaos_noninc s (shelveVisit r s i).
Proof. unfold shelveVisit. repeat case_match; chaos_chain. Qed.

Lemma checkBookPickup_chaos (s : PlayingState) :
  chaos_noninc s (checkBookPickup s).
Proof.
  unfold checkBookPickup. destruct (player s); [|apply chaos_noninc_refl].
  apply fold_left_preorder;
    [apply chaos_noninc_refl | apply chaos_noninc_trans
    | intros; apply pickupVisit_chaos].
Qed.

Lemma checkBookSnatching_chaos (s : PlayingState) :
  chaos_noninc s (checkBookSnatching s).
Proof.
  unfold checkBookSnatching. destruct (player s); [|apply chaos_noninc_refl].
  case_match; [apply chaos_noninc_refl|].
  apply fold_left_preorder;
    [apply chaos_noninc_refl | apply chaos_noninc_trans
    | intros; apply snatchVisit_chaos].
Qed.

Lemma checkBookShelving_chaos (s : PlayingState) :
  chaos_noninc s (checkBookShelving s).
Proof.
  unfold checkBookShelving. destruct (player s); [|apply chaos_noninc_refl].
  case_match; [apply chaos_noninc_refl|].
  apply fold_left_preorder;
    [apply chaos_noninc_refl | apply chaos_noninc_trans
    | intros; apply shelveVisit_chaos].
Qed.

(** ** The clamp of [updateChaos] *)

Lemma clamp_range (hi v : Q) : 0 <= hi -> 0 <= clamp hi v <= hi.
Proof.
  intros Hhi. unfold clamp. split.
  - apply Q.le_max_l.
  - apply Q.max_lub; [exact Hhi | apply Q.le_min_l].
Qed.

Lemma clamp_id (hi v : Q) : 0 <= v -> v <= hi -> clamp hi v == v.
Proof.
  intros H0 H1. unfold clamp.
  rewrite Q.max_r.
  - apply Q.min_r; exact H1.
  - apply Q.min_glb; [eapply Qle_trans; eassumption | exact H0].
Qed.

Lemma updateChaos_chaosLevel (deltaTime : Q) (s : PlayingState) :
  chaosLevel (gameData (updateChaos deltaTime s)) =
  clamp (maxChaos (gameData s)) (chaosDrift deltaTime s).
Proof. reflexivity. Qed.

Lemma updateChaos_maxChaos (deltaTime : Q) (s : PlayingState) :
  maxChaos (gameData (updateChaos deltaTime s)) = maxChaos (gameData s).
Proof. reflexivity. Qed.

Lemma updateChaos_in_range (deltaTime : Q) (s : PlayingState) :
  0 <= maxChaos (gameData s) -> chaosInRange (updateChaos deltaTime s).
Proof.
  intros H. unfold chaosInRange.
  rewrite updateChaos_chaosLevel, updateChaos_maxChaos.
  apply clamp_range, H.
Qed.

(** Along any sequence of events [maxChaos] is constant and the level
    stays at or below it. *)
Lemma run_upper_bound (events : list ChaosEvent) : forall s,
  0 <= maxChaos (gameData s) ->
  chaosLevel (gameData s) <= maxChaos (gameData s) ->
  maxChaos (gameData (run events s)) = maxChaos (gameData s) /\
  chaosLevel (gameData (run events s)) <= maxChaos (gameData s).
Proof.
  induction events as [|e events IH]; intros s Hmax Hle.
  - split; [reflexivity | exact Hle].
  - assert (Hstep : maxChaos (gameData (applyEvent e s))
                    = maxChaos (gameData s) /\
                    chaosLevel (gameData (applyEvent e s))
                    <= maxChaos (gameData s)).
    { destruct e as [dt| | |]; cbn [applyEvent].
      - split; [reflexivity|].
        rewrite updateChaos_chaosLevel. apply clamp_range, Hmax.
      - destruct (checkBookPickup_chaos s) as [E L].
        split; [exact E | eapply Qle_trans; eassumption].
      - destruct (checkBookSnatching_chaos s) as [E L].
        split; [exact E | eapply Qle_trans; eassumption].
      - destruct (checkBookShelving_chaos s) as [E L].
        split; [exact E | eapply Qle_trans; eassumption]. }
    destruct Hstep as [E L].
    destruct (IH (applyEvent e s)) as [E' L'].
    + rewrite E. exact Hmax.
    + rewrite E. exact L.
    + change (run (e :: events) s) with (run events (applyEvent e s)).
      rewrite E', E. split; [reflexivity|].
      rewrite E in L'. exact L'.
Qed.

Lemma run_app (e1 e2 : list ChaosEvent) (s : PlayingState) :
  run (e1 ++ e2) s = run e2 (run e1 s).
Proof. unfold run. apply fold_left_app. Qed.

(** C1, as the code has it.  From a state with [0 <= maxChaos] and
    [chaosLevel <= maxChaos], after any sequence of per-tick chaos updates
    and pickup, snatch and shelving passes the level is at most [maxChaos],
    and right after every per-tick chaos update it is within
    [0, maxChaos].  The discrete deltas are not clamped when they are
    applied: between a pass and the next chaos update the level can be
    below 0. *)
Theorem chaos_clamp_invariant (events : list ChaosEvent) (s : PlayingState) :
  0 <= maxChaos (gameData s) ->
  chaosLevel (gameData s) <= maxChaos (gameData s) ->
  chaosLevel (gameData (run events s)) <= maxChaos (gameData (run events s))
  /\ maxChaos (gameData (run events s)) = maxChaos (gameData s)
  /\ forall deltaTime,
       chaosInRange (run (events ++ [tick_updateChaos deltaTime]) s).
Proof.
  intros Hmax Hle.
  destruct (run_upper_bound events s Hmax Hle) as [E L].
  split; [rewrite E; exact L|]. split; [exact E|].
  intros dt. rewrite run_app.
  change (run [tick_updateChaos dt] (run events s))
    with (updateChaos dt (run events s)).
  apply updateChaos_in_range. rewrite E. exact Hmax.
Qed.

Lemma chaos_clamp_invariant_witness :
  chaosInRange
    (run [tick_updateChaos (1 # 60); pass_pickup; pass_shelving;
          tick_updateChaos (1 # 60)]
       (floor_book_by_shelf 0 96)).
Proof.
  destruct (chaos_clamp_invariant
              [tick_updateChaos (1 # 60); pass_pickup; pass_shelving]
              (floor_book_by_shelf 0 96)) as (_ & _ & H).
  - vm_compute. discriminate.
  - vm_compute. discriminate.
  - exact (H (1 # 60)).
Defined.

(** C1 as stated fails: a pickup from a state whose chaos level is in
    range leaves it negative, and it is still negative at the end of a
    whole tick. *)
Lemma chaos_negative_after_pickup :
  chaosInRange (floor_book_by_shelf 0 0) /\
  ~ chaosInRange (run [pass_pickup] (floor_book_by_shelf 0 0)) /\
  chaosLevel (gameData (update sample_Kid_new idle false (1 # 60)
                          sample_random (floor_book_by_shelf 0 0))) < 0.
Proof.
  split; [split; vm_compute; discriminate|].
  split.
  - intros [H _]. vm_compute in H. apply H. reflexivity.
  - vm_compute. reflexivity.
Qed.

(** C9. With [n > 0] books on the floor the per-tick update adds
    [n * 0.1 * deltaTime * (1 - chaosDampening / 100)], where
    [chaosDampening] is the stat of the player, and 0 when there is no
    player; with none and a positive level it subtracts
    [0.5 * deltaTime]; the result is then clamped to [0, maxChaos].  With
    no floor book, level 10 and [deltaTime = 1] the level becomes 9.5;
    with two floor books, no dampening and [deltaTime = 1] it grows by
    0.2. *)
Theorem updateChaos_formula (deltaTime : Q) (s : PlayingState) :
  let level := chaosLevel (gameData s) in
  let level' := chaosLevel (gameData (updateChaos deltaTime s)) in
  let hi := maxChaos (gameData s) in
  let n := booksOnFloor s in
  let dampening :=
    match player s with
    | Some p => chaosDampening (stats p)
    | None => 0
    end in
  let gain :=
    inject_Z (Z.of_nat n) * 0.1 * deltaTime * (1 - dampening / 100) in
  ((0 < n)%nat -> level' == clamp hi (level + gain)) /\
  ((0 < n)%nat -> 0 <= level + gain -> level + gain <= hi ->
   level' == level + gain) /\
  (n = 0%nat -> 0 < level ->
   level' == clamp hi (level - 0.5 * deltaTime)) /\
  (n = 0%nat -> 0 < level -> 0 <= level - 0.5 * deltaTime ->
   level - 0.5 * deltaTime <= hi -> level' == level - 0.5 * deltaTime) /\
  (n = 0%nat -> level == 10 -> deltaTime == 1 -> 9.5 <= hi ->
   level' == 9.5) /\
  (n = 2%nat -> dampening == 0 -> deltaTime == 1 ->
   0 <= level + 0.2 -> level + 0.2 <= hi -> level' == level + 0.2).
Proof.
  intros level level' hi n dampening gain.
  assert (Hpos : (0 < n)%nat -> level' = clamp hi (level + gain)).
  { intros Hn. subst level'. rewrite updateChaos_chaosLevel.
    unfold chaosDrift. fold n.
    apply Nat.ltb_lt in Hn. rewrite Hn. reflexivity. }
  assert (Hzero : n = 0%nat -> 0 < level ->
                  level' = clamp hi (level - 0.5 * deltaTime)).
  { intros Hn Hl. subst level'. rewrite updateChaos_chaosLevel.
    unfold chaosDrift. fold n. rewrite Hn. cbn [Nat.ltb Nat.leb].
    fold level. unfold Qltb.
    destruct (Qle_bool level 0) eqn:E; [|reflexivity].
    apply Qle_bool_iff in E. lra. }
  repeat split.
  - intros Hn. rewrite (Hpos Hn). reflexivity.
  - intros Hn H0 H1. rewrite (Hpos Hn). apply clamp_id; assumption.
  - intros Hn Hl. rewrite (Hzero Hn Hl). reflexivity.
  - intros Hn Hl H0 H1. rewrite (Hzero Hn Hl). apply clamp_id; assumption.
  - intros Hn Hl Hdt Hhi.
    rewrite Hzero; [|exact Hn | lra].
    rewrite clamp_id; lra.
  - intros Hn Hd Hdt H0 H1.
    rewrite Hpos by lia.
    assert (Hg : gain == 0.2).
    { subst gain. rewrite Hn, Hd, Hdt. reflexivity. }
    rewrite clamp_id; lra.
Qed.

(** The three sample ticks: decay from 10 to 9.5 on a clear floor; two
    floor books and no dampening, +0.2; the same two books and a player
    whose [chaosDampening] is 50, +0.1. *)
Lemma updateChaos_formula_witness :
  chaosLevel (gameData (updateChaos 1 clear_floor_chaos_10)) == 9.5 /\
  chaosLevel (gameData (updateChaos 1 two_floor_books)) ==
  chaosLevel (gameData two_floor_books) + 0.2 /\
  chaosLevel (gameData (updateChaos 1 (upgrade_player two_floor_books))) ==
  chaosLevel (gameData two_floor_books) + 0.1.
Proof.
  destruct (updateChaos_formula 1 clear_floor_chaos_10)
    as (_ & _ & _ & _ & Hdecay & _).
  destruct (updateChaos_formula 1 two_floor_books)
    as (_ & _ & _ & _ & _ & Hgain).
  destruct (updateChaos_formula 1 (upgrade_player two_floor_books))
    as (_ & Hdamp & _).
  split; [|split].
  - apply Hdecay; [reflexivity | reflexivity | reflexivity
                  | vm_compute; discriminate].
  - apply Hgain; [reflexivity | reflexivity | reflexivity
                 | vm_compute; discriminate | vm_compute; discriminate].
  - rewrite Hdamp; [reflexivity | vm_compute; lia
                   | vm_compute; discriminate | vm_compute; discriminate].
Defined.

(** ** The spawn scheduler *)

Lemma Qltb_lt (a b : Q) : Qltb a b = true <-> a < b.
Proof.
  unfold Qltb. rewrite negb_true_iff.
  split; intros H.
  - apply Qnot_le_lt. intros Hle. apply Qle_bool_iff in Hle. congruence.
  - destruct (Qle_bool b a) eqn:E; [|reflexivity].
    apply Qle_bool_iff in E. lra.
Qed.

Lemma Qltb_ge (a b : Q) : Qltb a b = false <-> b <= a.
Proof.
  unfold Qltb. rewrite negb_false_iff. apply Qle_bool_iff.
Qed.

Lemma randomIndex_lt (r : Random) (n : nat) :
  (0 < n)%nat -> (randomIndex r n < n)%nat.
Proof.
  intros Hn. unfold randomIndex.
  destruct r as [v Hv]. cbn [rval].
  apply andb_true_iff in Hv. destruct Hv as [H0 H1].
  apply Qle_bool_iff in H0. apply Qltb_lt in H1.
  set (m := inject_Z (Z.of_nat n)).
  assert (Hm : 0 < m).
  { subst m. change 0 with (inject_Z 0). rewrite <- Zlt_Qlt. lia. }
  assert (Hlo : (0 <= Qfloor (v * m))%Z).
  { change 0%Z with (Qfloor 0). apply Qfloor_resp_le. nra. }
  assert (Hhi : (Qfloor (v * m) < Z.of_nat n)%Z).
  { rewrite Zlt_Qlt. fold m.
    eapply Qle_lt_trans; [apply Qfloor_le|]. nra. }
  lia.
Qed.

Lemma spawnPoint_exists (r : Random) :
  exists p, spawnPoints !! randomIndex r (length spawnPoints) = Some p /\
            p ∈ spawnPoints.
Proof.
  destruct (lookup_lt_is_Some_2 spawnPoints
              (randomIndex r (length spawnPoints))) as [p Hp].
  { apply randomIndex_lt. simpl. lia. }
  exists p. split; [exact Hp|].
  apply list_elem_of_lookup. eauto.
Qed.

Section Scheduler.

Variable Kid_new : Q -> Q -> Z -> Kid.

Lemma ramp_frame (s : PlayingState) :
  kids (ramp s) = kids s /\ kidSpawnTimer (ramp s) = kidSpawnTimer s /\
  kidSpawnInterval (ramp s) = kidSpawnInterval s.
Proof. unfold ramp. repeat case_match; repeat split. Qed.

Lemma updateKidSpawning_ramp (deltaTime : Q) (rnd : Random)
    (s : PlayingState) :
  maxKids (updateKidSpawning Kid_new deltaTime rnd s) = maxKids (ramp s).
Proof.
  unfold updateKidSpawning.
  repeat case_match; reflexivity.
Qed.

(** C8. The scheduler spawns no kid and leaves the timer alone on a tick
    where the number of kids has reached [maxKids]; [maxKids] is 3 at
    [elapsedTime = 0] (from the 3 that [enter] sets) and 10 at
    [elapsedTime = 301]; below the cap the timer goes down by
    [deltaTime], and exactly when it is then [<= 0] one kid is added, at
    one of the 4 spawn points, and the timer is set back to the
    interval, 10 seconds. *)
Theorem spawn_scheduler (deltaTime : Q) (rnd : Random) (s : PlayingState) :
  let s' := updateKidSpawning Kid_new deltaTime rnd s in
  let minutes := elapsedTime (gameData s) / 60 in
  let count := Z.of_nat (length (kids s)) in
  ((maxKids s' <= count)%Z ->
   kids s' = kids s /\ kidSpawnTimer s' = kidSpawnTimer s) /\
  (elapsedTime (gameData s) == 0 -> maxKids s = 3%Z -> maxKids s' = 3%Z) /\
  (elapsedTime (gameData s) == 301 -> maxKids s' = 10%Z) /\
  ((count < maxKids s')%Z -> 0 < kidSpawnTimer s - deltaTime ->
   kids s' = kids s /\ kidSpawnTimer s' = kidSpawnTimer s - deltaTime) /\
  ((count < maxKids s')%Z -> kidSpawnTimer s - deltaTime <= 0 ->
   (exists p, p ∈ spawnPoints /\
      kids s' =
      kids s ++ [Kid_new (fst p) (snd p) (aggressionFor minutes)]) /\
   kidSpawnTimer s' = kidSpawnInterval s /\
   (kidSpawnInterval s == 10 -> kidSpawnTimer s' == 10)) /\
  length spawnPoints = 4%nat.
Proof.
  intros s' minutes count.
  pose proof (updateKidSpawning_ramp deltaTime rnd s) as Hmax.
  fold s' in Hmax.
  destruct (ramp_frame s) as (Hk & Ht & Hi).
  assert (Hcapped : (maxKids s' <= count)%Z -> s' = ramp s).
  { intros Hc. subst s'. unfold updateKidSpawning.
    rewrite Hmax in Hc. rewrite Hk. fold count.
    apply Z.leb_le in Hc. rewrite Hc. reflexivity. }
  assert (Hfree : (count < maxKids s')%Z ->
            s' =
            let s2 :=
              set_kidSpawnTimer (kidSpawnTimer s - deltaTime) (ramp s) in
            if Qle_bool (kidSpawnTimer s - deltaTime) 0 then
              match spawnPoints !! randomIndex rnd (length spawnPoints) with
              | Some p =>
                  set_kidSpawnTimer (kidSpawnInterval s)
                    (set_kids
                       (kids s ++
                          [Kid_new (fst p) (snd p) (aggressionFor minutes)])
                       s2)
              | None => s2
              end
            else s2).
  { intros Hc. subst s'. unfold updateKidSpawning.
    rewrite Hmax in Hc. rewrite Hk. fold count.
    apply Z.leb_gt in Hc. rewrite Hc.
    cbn [kidSpawnTimer kids kidSpawnInterval set_kidSpawnTimer].
    rewrite Hk, Ht, Hi. reflexivity. }
  repeat split.
  - rewrite (Hcapped H). exact Hk.
  - rewrite (Hcapped H). exact Ht.
  - intros He H3. rewrite Hmax. unfold ramp.
    assert (Hm : elapsedTime (gameData s) / 60 == 0).
    { rewrite He. reflexivity. }
    replace (Qltb 5 (elapsedTime (gameData s) / 60)) with false
      by (symmetry; apply Qltb_ge; rewrite Hm; discriminate).
    replace (Qltb 2 (elapsedTime (gameData s) / 60)) with false
      by (symmetry; apply Qltb_ge; rewrite Hm; discriminate).
    exact H3.
  - intros He. rewrite Hmax. unfold ramp.
    replace (Qltb 5 (elapsedTime (gameData s) / 60)) with true
      by (symmetry; apply Qltb_lt; rewrite He; reflexivity).
    reflexivity.
  - rewrite (Hfree H). cbv zeta.
    replace (Qle_bool (kidSpawnTimer s - deltaTime) 0) with false.
    + exact Hk.
    + symmetry. apply Qltb_lt in H0. unfold Qltb in H0.
      apply negb_true_iff in H0. exact H0.
  - rewrite (Hfree H). cbv zeta.
    replace (Qle_bool (kidSpawnTimer s - deltaTime) 0) with false.
    + reflexivity.
    + symmetry. apply Qltb_lt in H0. unfold Qltb in H0.
      apply negb_true_iff in H0. exact H0.
  - destruct (spawnPoint_exists rnd) as (p & Hp & Hin).
    exists p. split; [exact Hin|].
    rewrite (Hfree H). cbv zeta.
    apply Qle_bool_iff in H0. rewrite H0, Hp. reflexivity.
  - destruct (spawnPoint_exists rnd) as (p & Hp & Hin).
    rewrite (Hfree H). cbv zeta.
    apply Qle_bool_iff in H0. rewrite H0, Hp. reflexivity.
  - intros H10.
    destruct (spawnPoint_exists rnd) as (p & Hp & Hin).
    rewrite (Hfree H). cbv zeta.
    apply Qle_bool_iff in H0. rewrite H0, Hp. exact H10.
Qed.

End Scheduler.


(** ** The state manager log only grows *)















(** ** The snatch pass keeps what the player holds *)





Lemma awardXP_carriedByPlayer (amount : Q) (s : PlayingState) :
  carriedByPlayer (awardXP amount s) = carriedByPlayer s.
Proof.
  apply (awardXP_frame carriedByPlayer).
  - intros s0. unfold carriedByPlayer. rewrite levelUp_player.
    destruct (player s0); reflexivity.
  - intros a s0. unfold carriedByPlayer. now rewrite gainXP_player.
Qed.









(** ** The tick *)

Section TickTheorems.

Variable Kid_new : Q -> Q -> Z -> Kid.
Variable entitiesUpdate : Q -> PlayingState -> PlayingState.


(** C10. When the time advance of a tick reaches [targetTime], the tick
    requests the victory transition and stops: the chaos level is not
    updated and no defeat is requested, whatever the chaos level, so
    also when it is at or above [maxChaos]. *)
Theorem victory_before_defeat (deltaTime : Q) (rnd : Random)
    (s : PlayingState) :
  isPaused (gameData s) = false ->
  targetTime (gameData s) <= elapsedTime (gameData s) + deltaTime ->
  let s' := update Kid_new entitiesUpdate false deltaTime rnd s in
  s' = call_stateManager (changeState "gameover" true None)
         (advanceTime deltaTime s) /\
  stateManager s' = stateManager s ++ [changeState "gameover" true None] /\
  chaosLevel (gameData s') = chaosLevel (gameData s).
Proof.
  intros Hpaused Htime s'. subst s'. unfold update.
  rewrite Hpaused.
  apply Qle_bool_iff in Htime.
  change (Qle_bool (targetTime (gameData (advanceTime deltaTime s)))
            (elapsedTime (gameData (advanceTime deltaTime s))))
    with (Qle_bool (targetTime (gameData s))
            (elapsedTime (gameData s) + deltaTime)).
  rewrite Htime. repeat split.
Qed.

End TickTheorems.


(** ** The sample ticks *)

Lemma spawn_scheduler_witness :
  (* capped: three kids, cap 3 *)
  kids (updateKidSpawning sample_Kid_new 1 sample_random
          (scheduler_state 0 0
             [sample_kid 0 0 None; sample_kid 0 0 None; sample_kid 0 0 None]))
  = [sample_kid 0 0 None; sample_kid 0 0 None; sample_kid 0 0 None] /\
  (* the ramp *)
  maxKids (updateKidSpawning sample_Kid_new 1 sample_random
             (scheduler_state 0 10 [])) = 3%Z /\
  maxKids (updateKidSpawning sample_Kid_new 1 sample_random
             (scheduler_state 301 10 [])) = 10%Z /\
  (* below the cap, timer still positive *)
  kids (updateKidSpawning sample_Kid_new 1 sample_random
          (scheduler_state 0 10 [])) = [] /\
  (* below the cap, timer runs out *)
  (exists p, p ∈ spawnPoints /\
     kids (updateKidSpawning sample_Kid_new 1 sample_random
             (scheduler_state 0 (1 # 2) []))
     = [sample_Kid_new (fst p) (snd p) 1]) /\
  kidSpawnTimer (updateKidSpawning sample_Kid_new 1 sample_random
                   (scheduler_state 0 (1 # 2) [])) == 10.
Proof.
  pose (three := [sample_kid 0 0 None; sample_kid 0 0 None;
                  sample_kid 0 0 None]).
  destruct (spawn_scheduler sample_Kid_new 1 sample_random
              (scheduler_state 0 0 three)) as (Hcap & _).
  destruct (spawn_scheduler sample_Kid_new 1 sample_random
              (scheduler_state 0 10 [])) as (_ & H0 & _ & Hwait & _).
  destruct (spawn_scheduler sample_Kid_new 1 sample_random
              (scheduler_state 301 10 [])) as (_ & _ & H301 & _).
  destruct (spawn_scheduler sample_Kid_new 1 sample_random
              (scheduler_state 0 (1 # 2) [])) as (_ & _ & _ & _ & Hspawn & _).
  split; [apply Hcap; vm_compute; discriminate|].
  split; [apply H0; reflexivity|].
  split; [apply H301; reflexivity|].
  split; [apply Hwait; vm_compute; reflexivity|].
  destruct Hspawn as (Hp & _ & H10);
    [vm_compute; reflexivity | vm_compute; discriminate|].
  split; [exact Hp | apply H10; reflexivity].
Defined.

Lemma victory_before_defeat_witness :
  Qle_bool (maxChaos (gameData time_up_at_max_chaos))
    (chaosLevel (gameData (updateChaos 1
                             (advanceTime 1 time_up_at_max_chaos))))
  = true /\
  stateManager (update sample_Kid_new idle false 1 sample_random
                  time_up_at_max_chaos)
  = [changeState "gameover" true None] /\
  chaosLevel (gameData (update sample_Kid_new idle false 1 sample_random
                          time_up_at_max_chaos)) = 99.95.
Proof.
  split; [vm_compute; reflexivity|].
  destruct (victory_before_defeat sample_Kid_new idle 1 sample_random
              time_up_at_max_chaos) as (_ & Hlog & Hchaos).
  - reflexivity.
  - vm_compute. discriminate.
  - exact (conj Hlog Hchaos).
Defined.


(** ** The snatch pass when the last free slot fills during the scan *)

(** C4 on [two_kids_in_range].  The first kid's book goes to the player
    and fills the held list; the second kid is in range too: its carried
    book and drop timer are cleared although the book is not transferred,
    and its state stays [carrying]. *)
Theorem snatch_clears_kid_without_transfer :
  let s := two_kids_in_range in
  let s' := checkBookSnatching s in
  (carriedBook <$> kids s !! 1%nat) = Some (Some 1%nat) /\
  (dropBookTimer <$> kids s !! 1%nat) = Some 3 /\
  carriedByPlayer s = [2; 3]%nat /\
  carriedByPlayer s' = [2; 3; 0]%nat /\
  (carriedBook <$> kids s' !! 1%nat) = Some None /\
  (dropBookTimer <$> kids s' !! 1%nat) = Some 0 /\
  (state <$> kids s' !! 1%nat) = Some carrying /\
  booksCollected (gameData s') = 1%Z.
Proof. vm_compute. repeat split. Qed.

(** C5 on [two_kids_in_range].  Every book has one reference before the
    snatch pass; after it the second kid's book has none: it is flagged
    held, so it is not on the floor, and neither the player, a kid nor a
    shelf refers to it. *)
Theorem snatch_orphans_book :
  let s := two_kids_in_range in
  let s' := checkBookSnatching s in
  map (fun i => references i s) [0; 1; 2; 3]%nat = [1; 1; 1; 1]%nat /\
  map (fun i => references i s') [0; 1; 2; 3]%nat = [1; 0; 1; 1]%nat /\
  onFloorRefs 1 s' = 0%nat /\ heldRefs 1 s' = 0%nat /\
  shelfRefs 1 s' = 0%nat.
Proof. vm_compute. repeat split. Qed.

(** * Further properties *)

(** ** The object pool *)

Section ObjectPoolFacts.

Context {T F : Type} (factory : F -> T * F).

Lemma ObjectPool_fill_built (n : nat) : forall (pool : list T) (f : F),
  ObjectPool_fill factory n pool f =
  (rev (fst (built factory n f)) ++ pool, snd (built factory n f)).
Proof.
  induction n as [|n IH]; intros pool f; simpl; [reflexivity|].
  destruct (factory f) as [obj f'] eqn:Hf. rewrite IH.
  destruct (built factory n f') as [objs f'']. simpl.
  now rewrite <- app_assoc.
Qed.

Lemma ObjectPool_get_n_stock (objs : list T) : forall (pool : list T) (f : F),
  ObjectPool_get_n factory (length objs) (objs ++ pool) f = (objs, pool, f).
Proof.
  induction objs as [|obj objs IH]; intros pool f; simpl; [reflexivity|].
  now rewrite IH.
Qed.

Lemma ObjectPool_get_n_empty (n : nat) : forall (f : F),
  ObjectPool_get_n factory n [] f =
  (fst (built factory n f), [], snd (built factory n f)).
Proof.
  induction n as [|n IH]; intros f; simpl; [reflexivity|].
  destruct (factory f) as [obj f'] eqn:Hf. rewrite IH.
  now destruct (built factory n f').
Qed.

Lemma ObjectPool_release_all_rev (objs : list T) : forall pool : list T,
  ObjectPool_release_all objs pool = rev objs ++ pool.
Proof.
  induction objs as [|obj objs IH]; intros pool; [reflexivity|].
  unfold ObjectPool_release_all in *. simpl. rewrite IH.
  unfold ObjectPool_release. now rewrite <- app_assoc.
Qed.

Lemma ObjectPool_get_n_length (n : nat) : forall (pool : list T) (f : F),
  length (fst (fst (ObjectPool_get_n factory n pool f))) = n.
Proof.
  induction n as [|n IH]; intros pool f; simpl; [reflexivity|].
  destruct (ObjectPool_get factory pool f) as [[obj pool1] f1].
  specialize (IH pool1 f1).
  destruct (ObjectPool_get_n factory n pool1 f1) as [[objs pool2] f2].
  simpl in *. now rewrite IH.
Qed.

(** X1. A pool built with [initialSize = n] has called the factory
    exactly [n] times; its next [n] [get()] calls hand out those [n]
    objects, last built first, without calling the factory, and leave the
    pool empty; the [get()] after them calls the factory once. *)
Theorem ObjectPool_prewarmed (n : nat) (f : F) :
  let made := fst (built factory n f) in
  let f1 := snd (built factory n f) in
  ObjectPool_new factory n f = (rev made, f1) /\
  length made = n /\
  ObjectPool_get_n factory n (rev made) f1 = (rev made, [], f1) /\
  ObjectPool_get factory [] f1 = (fst (factory f1), [], snd (factory f1)).
Proof.
  intros made f1. split; [|split; [|split]].
  - unfold ObjectPool_new. rewrite ObjectPool_fill_built.
    now rewrite app_nil_r.
  - subst made. clear f1. revert f.
    induction n as [|m IH]; intros f; simpl; [reflexivity|].
    destruct (factory f) as [obj f']. specialize (IH f').
    destruct (built factory m f'). simpl in *. now rewrite IH.
  - assert (Hlen : length (rev made) = n).
    { rewrite length_rev. subst made. clear f1. revert f.
      induction n as [|m IH]; intros f; simpl; [reflexivity|].
      destruct (factory f) as [obj f']. specialize (IH f').
      destruct (built factory m f'). simpl in *. now rewrite IH. }
    rewrite <- Hlen at 1.
    rewrite <- (app_nil_r (rev made)) at 2.
    apply ObjectPool_get_n_stock.
  - simpl. now destruct (factory f1).
Qed.

(** X2. Whatever the pool holds, after [n] [get()] calls and the release
    of the [n] objects they returned, [n] more [get()] calls return those
    same objects, last released first, call the factory not once, and
    leave the pool as it was after the first [n] calls.  Nothing is
    checked on release: an object released twice is handed out twice. *)
Theorem ObjectPool_reuse (n : nat) (pool : list T) (f : F) :
  let '(objs, pool1, f1) := ObjectPool_get_n factory n pool f in
  ObjectPool_get_n factory n (ObjectPool_release_all objs pool1) f1
  = (rev objs, pool1, f1) /\
  forall obj,
    ObjectPool_get_n factory 2
      (ObjectPool_release obj (ObjectPool_release obj pool1)) f1
    = ([obj; obj], pool1, f1).
Proof.
  pose proof (ObjectPool_get_n_length n pool f) as Hlen.
  destruct (ObjectPool_get_n factory n pool f) as [[objs pool1] f1].
  simpl in Hlen. split; [|reflexivity].
  rewrite ObjectPool_release_all_rev.
  rewrite <- Hlen, <- length_rev.
  apply ObjectPool_get_n_stock.
Qed.

End ObjectPoolFacts.

(** The particle pool of the playing state is this pool with a factory
    that always builds the same blank particle. *)
Lemma pool_get_ObjectPool (pool : list Particle) :
  pool_get pool =
  fst (ObjectPool_get (fun _ : unit => (creationFunc, tt)) pool tt).
Proof. destruct pool; reflexivity. Qed.

(** ** Culling and proximity *)

Lemma Qltb_true (a b : Q) : Qltb a b = true <-> a < b.
Proof. apply Qltb_lt. Qed.

Lemma Qltb_proper (a a' b b' : Q) : a == a' -> b == b' -> Qltb a b = Qltb a' b'.
Proof.
  intros Ha Hb. unfold Qltb. f_equal.
  destruct (Qle_bool b a) eqn:E1, (Qle_bool b' a') eqn:E2; try reflexivity.
  - apply Qle_bool_iff in E1. rewrite Ha, Hb in E1.
    apply Qle_bool_iff in E1. congruence.
  - apply Qle_bool_iff in E2. rewrite <- Ha, <- Hb in E2.
    apply Qle_bool_iff in E2. congruence.
Qed.

Lemma isInViewport_spec (e : Bounds) (vx vy vw vh : Q) :
  isInViewport e vx vy vw vh = true <->
  x e < vx + vw /\ vx < x e + width e /\
  y e < vy + vh /\ vy < y e + height e.
Proof.
  unfold isInViewport. rewrite !andb_true_iff, !Qltb_lt. tauto.
Qed.

(** Two open intervals that each start before the other ends share a
    point. *)
Lemma open_intervals_meet (a1 b1 a2 b2 : Q) :
  a1 < b1 -> a2 < b2 -> a1 < b2 -> a2 < b1 ->
  exists p, a1 < p /\ p < b1 /\ a2 < p /\ p < b2.
Proof.
  intros H1 H2 H3 H4.
  destruct (Qlt_le_dec a1 a2) as [Ha | Ha];
    destruct (Qlt_le_dec b1 b2) as [Hb | Hb].
  - exists ((a2 + b1) * (1 # 2)). repeat split; lra.
  - exists ((a2 + b2) * (1 # 2)). repeat split; lra.
  - exists ((a1 + b1) * (1 # 2)). repeat split; lra.
  - exists ((a1 + b2) * (1 # 2)). repeat split; lra.
Qed.

(** X3. For an entity and a viewport of positive width and height,
    [isInViewport] holds exactly when some point lies strictly inside
    both rectangles: an entity that only touches the viewport along an
    edge is culled. *)
Theorem isInViewport_iff_common_point (e : Bounds) (vx vy vw vh : Q) :
  0 < width e -> 0 < height e -> 0 < vw -> 0 < vh ->
  (isInViewport e vx vy vw vh = true <->
   exists px py,
     (x e < px /\ px < x e + width e /\ y e < py /\ py < y e + height e) /\
     (vx < px /\ px < vx + vw /\ vy < py /\ py < vy + vh)) /\
  (x e == vx + vw -> isInViewport e vx vy vw vh = false).
Proof.
  intros Hw Hh Hvw Hvh. split.
  - rewrite isInViewport_spec. split.
    + intros (H1 & H2 & H3 & H4).
      destruct (open_intervals_meet (x e) (x e + width e) vx (vx + vw))
        as (px & Hpx); [lra | lra | lra | lra |].
      destruct (open_intervals_meet (y e) (y e + height e) vy (vy + vh))
        as (py & Hpy); [lra | lra | lra | lra |].
      exists px, py. tauto.
    + intros (px & py & He & Hv). repeat split; lra.
  - intros Hx. destruct (isInViewport e vx vy vw vh) eqn:E; [|reflexivity].
    apply isInViewport_spec in E. lra.
Qed.

Lemma isInViewport_iff_common_point_witness :
  isInViewport {| x := 10; y := 10; width := 32; height := 32 |} 0 0 800 600
  = true /\
  isInViewport {| x := 800; y := 10; width := 32; height := 32 |} 0 0 800 600
  = false.
Proof.
  destruct (isInViewport_iff_common_point
              {| x := 10; y := 10; width := 32; height := 32 |} 0 0 800 600)
    as [Hiff _]; [reflexivity | reflexivity | reflexivity | reflexivity |].
  destruct (isInViewport_iff_common_point
              {| x := 800; y := 10; width := 32; height := 32 |} 0 0 800 600)
    as [_ Hedge]; [reflexivity | reflexivity | reflexivity | reflexivity |].
  split.
  - apply Hiff. exists 20, 20. vm_compute. tauto.
  - apply Hedge. reflexivity.
Defined.

(** X4. The shelving proximity test is the culling test of the player's
    box against the shelf's box grown by [distance] on every side, and
    fails without a player; a shelf that is near at one distance is near
    at every larger one. *)
Theorem isPlayerNearShelf_grown_box (s : PlayingState) (sh : Shelf)
    (distance : Q) :
  isPlayerNearShelf s sh distance =
  match player s with
  | Some p =>
      let box := grown (shelf_bounds sh) distance in
      isInViewport (player_bounds p) (x box) (y box) (width box) (height box)
  | None => false
  end /\
  forall distance', distance <= distance' ->
    isPlayerNearShelf s sh distance = true ->
    isPlayerNearShelf s sh distance' = true.
Proof.
  unfold isPlayerNearShelf.
  destruct (player s) as [p|];
    [|split; [reflexivity | intros; discriminate]].
  split.
  - unfold isInViewport, grown. cbn [x y width height].
    apply f_equal2; [apply f_equal2; [apply f_equal2|]|];
      apply Qltb_proper; try reflexivity; ring.
  - intros d' Hd. cbv zeta. rewrite !andb_true_iff, !Qltb_lt.
    intros (((H1 & H2) & H3) & H4). repeat split; lra.
Qed.

Lemma isPlayerNearShelf_grown_box_witness :
  isPlayerNearShelf (floor_book_by_shelf 0 0)
    {| shelf_bounds := {| x := 100; y := 100; width := 64; height := 32 |};
       shelf_color := red; capacity := 6; shelf_books := [] |} 70 = true.
Proof.
  apply (proj2 (isPlayerNearShelf_grown_box (floor_book_by_shelf 0 0) _ 64)).
  - discriminate.
  - reflexivity.
Defined.

(** ** The drawing order *)

Lemma insertByBottom_perm (e : Entity) (l : list Entity) :
  Permutation (insertByBottom e l) (e :: l).
Proof.
  induction l as [|h t IH]; simpl; [reflexivity|].
  destruct (Qle_bool (bottom e) (bottom h)); [reflexivity|].
  rewrite IH. apply perm_swap.
Qed.

Lemma sortByBottom_perm (l : list Entity) : Permutation (sortByBottom l) l.
Proof.
  induction l as [|e t IH]; simpl; [reflexivity|].
  rewrite insertByBottom_perm. now apply perm_skip.
Qed.

Lemma insertByBottom_HdRel (a e : Entity) (l : list Entity) :
  bottom_le a e -> HdRel bottom_le a l ->
  HdRel bottom_le a (insertByBottom e l).
Proof.
  intros Hae Hl. destruct l as [|h t]; simpl.
  - constructor. exact Hae.
  - destruct (Qle_bool (bottom e) (bottom h)).
    + constructor. exact Hae.
    + constructor. inversion Hl; assumption.
Qed.

Lemma insertByBottom_sorted (e : Entity) (l : list Entity) :
  Sorted bottom_le l -> Sorted bottom_le (insertByBottom e l).
Proof.
  induction l as [|h t IH]; intros Hs; simpl.
  - repeat constructor.
  - destruct (Qle_bool (bottom e) (bottom h)) eqn:E.
    + constructor; [exact Hs|]. constructor. apply Qle_bool_iff, E.
    + inversion Hs as [|? ? Ht Hh]; subst.
      constructor; [apply IH, Ht|].
      apply insertByBottom_HdRel; [|exact Hh].
      unfold bottom_le.
      destruct (Qlt_le_dec (bottom h) (bottom e)) as [Hlt | Hle].
      * apply Qlt_le_weak, Hlt.
      * apply Qle_bool_iff in Hle. congruence.
Qed.

Lemma sortByBottom_sorted (l : list Entity) : Sorted bottom_le (sortByBottom l).
Proof.
  induction l as [|e t IH]; simpl; [constructor|].
  apply insertByBottom_sorted, IH.
Qed.

Lemma insertByBottom_stable (k : Q) (e : Entity) (l : list Entity) :
  List.filter (fun a => Qeq_bool (bottom a) k) (insertByBottom e l) =
  List.filter (fun a => Qeq_bool (bottom a) k) (e :: l).
Proof.
  induction l as [|h t IH]; [reflexivity|].
  cbn [insertByBottom].
  destruct (Qle_bool (bottom e) (bottom h)) eqn:E; [reflexivity|].
  cbn [List.filter] in *. rewrite IH.
  destruct (Qeq_bool (bottom e) k) eqn:Ee; [|reflexivity].
  destruct (Qeq_bool (bottom h) k) eqn:Eh; [|reflexivity].
  apply Qeq_bool_iff in Ee, Eh.
  assert (Hle : bottom e <= bottom h) by (rewrite Ee, Eh; apply Qle_refl).
  apply Qle_bool_iff in Hle. congruence.
Qed.

Lemma sortByBottom_stable (k : Q) (l : list Entity) :
  List.filter (fun a => Qeq_bool (bottom a) k) (sortByBottom l) =
  List.filter (fun a => Qeq_bool (bottom a) k) l.
Proof.
  induction l as [|e t IH]; [reflexivity|].
  cbn [sortByBottom]. rewrite insertByBottom_stable.
  cbn [List.filter]. now rewrite IH.
Qed.

Lemma renderables_book (s : PlayingState) (b : Book) :
  In (book_entity b) (renderables s) -> In b (books s) /\ onFloor b = true.
Proof.
  unfold renderables. rewrite !in_app_iff, !in_map_iff.
  intros [H | [H | [H | H]]].
  - destruct H as (sh & Hsh & _). discriminate.
  - destruct H as (b' & Hb & Hin). inversion Hb; subst.
    apply filter_In in Hin. exact Hin.
  - destruct H as (k & Hk & _). discriminate.
  - destruct (player s); simpl in H; [|contradiction].
    destruct H as [H | []]. discriminate.
Qed.

(** X5. The entities [render] draws are exactly the renderables that
    pass the viewport test, each as often as it occurs there; they are
    drawn in ascending order of their bottom edge [y + height], entities
    with equal bottom edges in their order in the renderables list; and a
    book is drawn only if it is one of [this.books] and neither held nor
    shelved. *)
Theorem render_draw_order (vx vy vw vh : Q) (s : PlayingState) :
  let visible :=
    List.filter (fun e => isInViewport (entity_bounds e) vx vy vw vh)
      (renderables s) in
  let drawn := renderEntities vx vy vw vh s in
  Permutation drawn visible /\
  Sorted bottom_le drawn /\
  (forall k,
     List.filter (fun a => Qeq_bool (bottom a) k) drawn =
     List.filter (fun a => Qeq_bool (bottom a) k) visible) /\
  (forall e, In e drawn ->
     In e (renderables s) /\
     isInViewport (entity_bounds e) vx vy vw vh = true) /\
  (forall b, In (book_entity b) drawn ->
     In b (books s) /\ isHeld b = false /\ isShelved b = false).
Proof.
  intros visible drawn.
  assert (Hperm : Permutation drawn visible) by apply sortByBottom_perm.
  assert (Hin : forall e, In e drawn ->
            In e (renderables s) /\
            isInViewport (entity_bounds e) vx vy vw vh = true).
  { intros e He. apply (Permutation_in _ Hperm) in He.
    apply filter_In in He. exact He. }
  split; [exact Hperm|]. split; [apply sortByBottom_sorted|].
  split; [intros k; apply sortByBottom_stable|]. split; [exact Hin|].
  intros b Hb. destruct (Hin _ Hb) as [Hr _].
  apply renderables_book in Hr. destruct Hr as [Hbooks Hfloor].
  split; [exact Hbooks|]. unfold onFloor in Hfloor.
  apply andb_true_iff in Hfloor. destruct Hfloor as [H1 H2].
  apply negb_true_iff in H1, H2. split; assumption.
Qed.

(** ** The HUD *)

Lemma Qfloor_unique (q : Q) (z : Z) :
  inject_Z z <= q -> q < inject_Z (z + 1) -> Qfloor q = z.
Proof.
  intros Hlo Hhi.
  assert (H1 : (z <= Qfloor q)%Z).
  { rewrite <- (Qfloor_Z z). apply Qfloor_resp_le, Hlo. }
  assert (H2 : (Qfloor q < z + 1)%Z).
  { rewrite Zlt_Qlt. eapply Qle_lt_trans; [apply Qfloor_le | exact Hhi]. }
  lia.
Qed.

Lemma Qfloor_bounds (q : Q) :
  inject_Z (Qfloor q) <= q /\ q < inject_Z (Qfloor q) + 1.
Proof.
  split; [apply Qfloor_le|].
  pose proof (Qlt_floor q) as H. rewrite inject_Z_plus in H. exact H.
Qed.

Lemma timeRemaining_nonneg (g : GameData) : 0 <= timeRemaining g.
Proof. apply Q.le_max_l. Qed.

(** X6. The timer of the HUD never shows a negative number: the minutes
    are at least 0, the seconds are between 0 and 59, together they make
    up the whole seconds left, [60 * minutes + seconds =
    floor(timeRemaining)], and once [elapsedTime] has reached
    [targetTime] the timer reads 0:00. *)
Theorem timer_display (g : GameData) :
  (0 <= timerMinutes g)%Z /\
  (0 <= timerSeconds g <= 59)%Z /\
  (60 * timerMinutes g + timerSeconds g)%Z = Qfloor (timeRemaining g) /\
  (targetTime g <= elapsedTime g ->
   timerMinutes g = 0%Z /\ timerSeconds g = 0%Z).
Proof.
  pose proof (timeRemaining_nonneg g) as Hpos.
  unfold timerMinutes, timerSeconds, jsRemainder, Qtrunc.
  set (tr := timeRemaining g) in *.
  assert (Hq : 0 <= tr / 60).
  { unfold Qdiv. change (/ 60) with (1 # 60). lra. }
  apply Qle_bool_iff in Hq as Hb. rewrite Hb.
  set (m := Qfloor (tr / 60)).
  destruct (Qfloor_bounds (tr / 60)) as [Hm1 Hm2]. fold m in Hm1, Hm2.
  unfold Qdiv in Hm1, Hm2. change (/ 60) with (1 # 60) in Hm1, Hm2.
  set (r := tr - 60 * inject_Z m).
  assert (Hr : 0 <= r /\ r < 60) by (subst r; split; lra).
  destruct (Qfloor_bounds r) as [Hs1 Hs2].
  assert (Hm0 : (0 <= m)%Z).
  { change 0%Z with (Qfloor 0). apply Qfloor_resp_le, Hq. }
  assert (Hs0 : (0 <= Qfloor r)%Z).
  { change 0%Z with (Qfloor 0). apply Qfloor_resp_le, Hr. }
  assert (Hs59 : (Qfloor r < 60)%Z).
  { rewrite Zlt_Qlt. change (inject_Z 60) with 60. lra. }
  assert (Hsum : (60 * m + Qfloor r)%Z = Qfloor tr).
  { symmetry. apply Qfloor_unique.
    - rewrite inject_Z_plus, inject_Z_mult.
      change (inject_Z 60) with 60. subst r. lra.
    - rewrite !inject_Z_plus, inject_Z_mult.
      change (inject_Z 60) with 60. change (inject_Z 1) with 1.
      subst r. lra. }
  split; [exact Hm0|]. split; [lia|]. split; [exact Hsum|].
  intros Hup.
  assert (Htr : tr == 0).
  { subst tr. unfold timeRemaining. apply Q.max_l. lra. }
  assert (Hf : Qfloor tr = 0%Z) by (rewrite Htr; reflexivity).
  lia.
Qed.

Lemma timer_display_witness :
  timerMinutes (gameData time_up_at_max_chaos) = 0%Z /\
  timerSeconds (gameData time_up_at_max_chaos) = 0%Z /\
  timerMinutes (gameData (advanceTime 1 time_up_at_max_chaos)) = 0%Z /\
  timerSeconds (gameData (advanceTime 1 time_up_at_max_chaos)) = 0%Z.
Proof.
  split; [reflexivity|]. split; [reflexivity|].
  apply (proj2 (proj2 (proj2
           (timer_display (gameData (advanceTime 1 time_up_at_max_chaos)))))).
  vm_compute. discriminate.
Defined.

(** X7. With [maxChaos > 0] the filled part of the chaos bar stays
    inside the 300 pixel bar, and the label between 0 and [maxChaos],
    exactly as long as the chaos level is within [0, maxChaos]; a
    negative level, which a pickup, snatch or shelving leaves when the
    level was below its delta, is drawn with a negative width and a label
    of at most -1. *)
Theorem chaos_meter_display (g : GameData) :
  0 < maxChaos g ->
  (0 <= chaosLevel g /\ chaosLevel g <= maxChaos g <->
   0 <= chaosFillWidth g /\ chaosFillWidth g <= 300) /\
  (0 <= chaosLevel g -> chaosLevel g <= maxChaos g ->
   (0 <= chaosLabel g)%Z /\ inject_Z (chaosLabel g) <= maxChaos g) /\
  (chaosLevel g < 0 -> chaosFillWidth g < 0 /\ (chaosLabel g <= -1)%Z).
Proof.
  intros Hmax. unfold chaosFillWidth, chaosPercent, chaosLabel.
  set (c := chaosLevel g). set (hi := maxChaos g) in *.
  assert (Hinv : 0 < / hi) by (apply Qinv_lt_0_compat, Hmax).
  assert (Hc : c == (c / hi) * hi).
  { unfold Qdiv. rewrite <- Qmult_assoc, (Qmult_comm (/ hi)).
    rewrite Qmult_inv_r; [ring|]. intros E. rewrite E in Hmax.
    apply Qlt_irrefl in Hmax. exact Hmax. }
  set (pct := c / hi) in *.
  split; [|split].
  - split.
    + intros [H0 H1]. split.
      * assert (0 <= pct); [|lra].
        subst pct. apply Qle_shift_div_l; [exact Hmax | lra].
      * assert (pct <= 1); [|lra].
        subst pct. apply Qle_shift_div_r; [exact Hmax | lra].
    + intros [H0 H1].
      assert (Hp0 : 0 <= pct) by lra. assert (Hp1 : pct <= 1) by lra.
      split; rewrite Hc; nra.
  - intros H0 H1. split.
    + change 0%Z with (Qfloor 0). apply Qfloor_resp_le, H0.
    + eapply Qle_trans; [apply Qfloor_le | exact H1].
  - intros Hneg. split.
    + assert (pct < 0); [|lra].
      subst pct. apply Qlt_shift_div_r; [exact Hmax | lra].
    + assert (H : (Qfloor c < 0)%Z); [|lia].
      rewrite Zlt_Qlt. eapply Qle_lt_trans; [apply Qfloor_le | exact Hneg].
Qed.

Lemma chaos_meter_display_witness :
  chaosFillWidth (gameData (checkBookPickup (floor_book_by_shelf 0 0))) < 0 /\
  (chaosLabel (gameData (checkBookPickup (floor_book_by_shelf 0 0))) <= -1)%Z.
Proof.
  apply (chaos_meter_display
           (gameData (checkBookPickup (floor_book_by_shelf 0 0)))).
  - vm_compute. reflexivity.
  - vm_compute. reflexivity.
Defined.

(** ** Particles *)

Lemma filter_split_length {A : Type} (f : A -> bool) (l : list A) :
  (length (List.filter f l) + length (List.filter (fun a => negb (f a)) l)
   = length l)%nat.
Proof.
  induction l as [|a l IH]; simpl; [reflexivity|].
  destruct (f a); simpl; lia.
Qed.

Lemma release_all_length (l pool : list Particle) :
  length (fold_left (fun pool p => pool_release p pool) l pool)
  = (length l + length pool)%nat.
Proof.
  revert pool. induction l as [|p l IH]; intros pool; simpl; [reflexivity|].
  rewrite IH. unfold pool_release. simpl. lia.
Qed.

Lemma release_all_In (q : Particle) (l : list Particle) :
  forall pool, In q l \/ In q pool ->
  In q (fold_left (fun pool p => pool_release p pool) l pool).
Proof.
  induction l as [|p l IH]; intros pool [H | H]; simpl;
    try contradiction; try exact H.
  - apply IH. destruct H as [-> | H]; [right; left; reflexivity | left; exact H].
  - apply IH. right. right. exact H.
Qed.

Lemma updateParticles_total (deltaTime : Q) (s : PlayingState) :
  (length (particles (updateParticles deltaTime s))
   + length (particlePool (updateParticles deltaTime s))
   = length (particles s) + length (particlePool s))%nat.
Proof.
  unfold updateParticles. cbn [particles particlePool set_particles].
  rewrite release_all_length.
  pose proof (filter_split_length expired
                (map (particle_advance deltaTime) (particles s))) as H.
  rewrite length_map in H. lia.
Qed.

(** X8. After [updateParticles] every active particle is younger than
    its lifetime, every particle that reached its lifetime is in the pool,
    and no particle object is lost or made: the active list and the pool
    together hold as many as before. *)
Theorem updateParticles_conserves (deltaTime : Q) (s : PlayingState) :
  let s' := updateParticles deltaTime s in
  (forall p, In p (particles s') -> age p < lifetime p) /\
  (forall p, In p (particles s) ->
     lifetime p <= age p + deltaTime ->
     In (particle_advance deltaTime p) (particlePool s')) /\
  (length (particles s') + length (particlePool s')
   = length (particles s) + length (particlePool s))%nat /\
  (length (particles s') <= length (particles s))%nat.
Proof.
  intros s'. subst s'. unfold updateParticles.
  cbn [particles particlePool set_particles].
  set (aged := map (particle_advance deltaTime) (particles s)).
  split; [|split; [|split]].
  - intros p Hp. apply filter_In in Hp. destruct Hp as [_ Hp].
    apply negb_true_iff in Hp. unfold expired in Hp.
    apply Qnot_le_lt. intros Hle. apply Qle_bool_iff in Hle. congruence.
  - intros p Hp Hold.
    assert (Hin : In (particle_advance deltaTime p)
                    (List.filter expired aged)).
    { apply filter_In. split; [apply in_map, Hp|].
      unfold expired. apply Qle_bool_iff. exact Hold. }
    apply release_all_In. left. exact Hin.
  - apply (updateParticles_total deltaTime s).
  - pose proof (filter_split_length expired aged) as H.
    subst aged. rewrite length_map in H. lia.
Qed.

Lemma updateParticles_conserves_witness :
  In (particle_advance 2 (creationFunc))
    (particlePool
       (updateParticles 2
          (set_particles [creationFunc] [] (progress_state 0 100 1)))).
Proof.
  apply (proj1 (proj2 (updateParticles_conserves 2
           (set_particles [creationFunc] [] (progress_state 0 100 1))))).
  - left. reflexivity.
  - vm_compute. discriminate.
Defined.

(** ** Particles over several ticks, in doubles *)

Lemma updateParticles_fl_exact (deltaTime : Q) (s : PlayingState) :
  updateParticles_fl (fun v => v) deltaTime s = updateParticles deltaTime s.
Proof. reflexivity. Qed.

Lemma Qpow_range (a : Q) (n : nat) :
  0 <= a -> a <= 1 -> 0 <= Qpow a n /\ Qpow a n <= 1.
Proof.
  intros H0 H1. induction n as [|n [IH0 IH1]]; simpl; [lra|].
  assert (0 <= a * Qpow a n) by (apply Qmult_le_0_compat; assumption).
  assert (0 <= (1 - a) * Qpow a n) by (apply Qmult_le_0_compat; lra).
  lra.
Qed.

Lemma Qsum_app (l1 l2 : list Q) : Qsum (l1 ++ l2) == Qsum l1 + Qsum l2.
Proof. induction l1 as [|d l IH]; simpl; [ring|]. rewrite IH. ring. Qed.

Lemma Qsum_nonneg (l : list Q) : Forall (fun d => 0 <= d) l -> 0 <= Qsum l.
Proof.
  induction 1 as [|d l Hd _ IH]; simpl; [apply Qle_refl | lra].
Qed.

(** One rounded addition costs at most the factor [a = 1 - u]. *)
Lemma rounded_sum_step (a P v d S w : Q) :
  0 <= a -> a <= 1 -> 0 <= P -> 0 <= S -> a * (v + d) <= w ->
  a * P * (v + (d + S)) <= P * (w + S).
Proof.
  intros Ha0 Ha1 HP HS Hw.
  assert (0 <= P * (w - a * (v + d))) by (apply Qmult_le_0_compat; lra).
  assert (0 <= (P * S) * (1 - a))
    by (apply Qmult_le_0_compat; [apply Qmult_le_0_compat|]; lra).
  lra.
Qed.

Lemma updateParticles_fl_total (fl : Q -> Q) (deltaTime : Q)
    (s : PlayingState) :
  (length (particles (updateParticles_fl fl deltaTime s))
   + length (particlePool (updateParticles_fl fl deltaTime s))
   = length (particles s) + length (particlePool s))%nat.
Proof.
  unfold updateParticles_fl. cbn [particles particlePool set_particles].
  rewrite release_all_length.
  pose proof (filter_split_length expired
                (map (particle_advance_fl fl deltaTime) (particles s))) as H.
  rewrite length_map in H. lia.
Qed.

Lemma tickParticles_fl_particles (fl : Q -> Q) (deltaTimes : list Q) :
  forall s,
  particles (tickParticles_fl fl deltaTimes s)
  = survivors_fl fl deltaTimes (particles s).
Proof.
  induction deltaTimes as [|d l IH]; intros s; [reflexivity|].
  unfold tickParticles_fl, survivors_fl in *. simpl. now rewrite IH.
Qed.

Lemma tickParticles_fl_total (fl : Q -> Q) (deltaTimes : list Q) :
  forall s,
  (length (particles (tickParticles_fl fl deltaTimes s))
   + length (particlePool (tickParticles_fl fl deltaTimes s))
   = length (particles s) + length (particlePool s))%nat.
Proof.
  induction deltaTimes as [|d l IH]; intros s; [reflexivity|].
  unfold tickParticles_fl in *. simpl. rewrite IH.
  apply updateParticles_fl_total.
Qed.

Section ParticlesRounded.

(** The rounding and its unit roundoff [u], 2^-53 for doubles rounded to
    nearest: a result that is not negative loses at most the fraction [u]
    of its value. *)
Variable fl : Q -> Q.
Variable u : Q.
Hypothesis u_range : 0 <= u /\ u <= 1.
Hypothesis fl_lower : forall v, 0 <= v -> (1 - u) * v <= fl v.

Lemma survivors_fl_origin (deltaTimes : list Q) : forall l q,
  Forall (fun d => 0 <= d) deltaTimes ->
  In q (survivors_fl fl deltaTimes l) ->
  exists p, In p l /\ lifetime q = lifetime p /\
    (0 <= age p ->
     0 <= age q /\
     Qpow (1 - u) (length deltaTimes) * (age p + Qsum deltaTimes) <= age q).
Proof.
  destruct u_range as [Hu0 Hu1].
  induction deltaTimes as [|d dts IH]; intros l q Hpos Hq.
  - exists q. repeat split; [exact Hq | assumption |]. simpl. lra.
  - inversion Hpos as [|? ? Hd Hrest]; subst.
    unfold survivors_fl in Hq. simpl in Hq.
    apply (IH _ _ Hrest) in Hq.
    destruct Hq as (p1 & Hp1 & Hl & Ha).
    apply filter_In in Hp1. destruct Hp1 as [Hp1 _].
    apply in_map_iff in Hp1. destruct Hp1 as (p & <- & Hp).
    exists p. split; [exact Hp|]. split; [exact Hl|].
    intros Hage.
    cbn [age particle_advance_fl] in Ha.
    assert (Hstep : (1 - u) * (age p + d) <= fl (age p + d))
      by (apply fl_lower; lra).
    assert (Hnn : 0 <= fl (age p + d)).
    { assert (0 <= (1 - u) * (age p + d))
        by (apply Qmult_le_0_compat; lra). lra. }
    destruct (Ha Hnn) as [Hq0 Hbound]. split; [exact Hq0|].
    pose proof (Qpow_range (1 - u) (length dts)) as [HP0 HP1]; [lra | lra |].
    pose proof (Qsum_nonneg dts Hrest) as HS.
    pose proof (rounded_sum_step (1 - u) (Qpow (1 - u) (length dts))
                  (age p) d (Qsum dts) (fl (age p + d))
                  ltac:(lra) ltac:(lra) HP0 HS Hstep) as Hr.
    cbn [length Qpow Qsum fold_right]. fold (Qsum dts). lra.
Qed.

(** X9. No particle outlives its lifetime for long, rounding included.
    Let the ticks have [deltaTime >= 0] and let every addition lose at
    most the fraction [u] of its result.  When for every active particle
    the time ticked, up to and including the last of the [n] ticks, takes
    its age to [lifetime / (1 - u)^n] or beyond, then after the last
    [updateParticles] the active list is empty and all of its particles
    are in the pool. *)
Theorem particles_expire (deltaTimes : list Q) (last : Q)
    (s : PlayingState) :
  let ticks := deltaTimes ++ [last] in
  Forall (fun d => 0 <= d) ticks ->
  (forall p, In p (particles s) ->
     0 <= age p /\
     lifetime p <= Qpow (1 - u) (length ticks) * (age p + Qsum ticks)) ->
  let s' := tickParticles_fl fl ticks s in
  particles s' = [] /\
  length (particlePool s')
  = (length (particlePool s) + length (particles s))%nat.
Proof.
  intros ticks Hpos Hold s'.
  assert (Hnil : particles s' = []).
  { subst s'. rewrite tickParticles_fl_particles.
    destruct (survivors_fl fl ticks (particles s)) as [|q rest] eqn:E;
      [reflexivity|].
    assert (Hq : In q (survivors_fl fl ticks (particles s)))
      by (rewrite E; left; reflexivity).
    assert (Halive : negb (expired q) = true).
    { revert Hq. subst ticks. unfold survivors_fl.
      rewrite fold_left_app. simpl. intros Hq.
      apply filter_In in Hq. exact (proj2 Hq). }
    apply (survivors_fl_origin ticks _ _ Hpos) in Hq.
    destruct Hq as (p & Hp & Hl & Ha).
    destruct (Hold p Hp) as [Hage Hlife].
    destruct (Ha Hage) as [_ Hbound].
    apply negb_true_iff in Halive. unfold expired in Halive.
    assert (Hle : lifetime q <= age q) by (rewrite Hl; lra).
    apply Qle_bool_iff in Hle. congruence. }
  split; [exact Hnil|].
  pose proof (tickParticles_fl_total fl ticks s) as Ht.
  fold s' in Ht. rewrite Hnil in Ht. simpl in Ht. lia.
Qed.

End ParticlesRounded.

(** The particle of an XP award lives 1.5 s.  With a rounding that loses
    a thousandth at every addition, three ticks of half a second leave it
    active at an age just below 1.5, and a fourth tick expires it. *)
Lemma particles_expire_witness :
  particles
    (tickParticles_fl lossy ([1 # 2; 1 # 2; 1 # 2] ++ [1 # 2])
       (awardXP 5 (progress_state 0 100 1))) = [] /\
  length
    (particles
       (tickParticles_fl lossy [1 # 2; 1 # 2; 1 # 2]
          (awardXP 5 (progress_state 0 100 1)))) = 1%nat.
Proof.
  split; [|vm_compute; reflexivity].
  apply (particles_expire lossy (1 # 1000)
           ltac:(split; discriminate)
           ltac:(intros v Hv; unfold lossy; lra)
           [1 # 2; 1 # 2; 1 # 2] (1 # 2)
           (awardXP 5 (progress_state 0 100 1))).
  - repeat constructor; discriminate.
  - intros p Hp. vm_compute in Hp. destruct Hp as [<- | []].
    split; vm_compute; discriminate.
Defined.

(** ** Experience and levels *)

Lemma Qpower_145_succ (n : Z) : 1.45 ^ (n + 1) == 1.45 ^ n * 1.45.
Proof. rewrite Qpower_plus; [reflexivity | discriminate]. Qed.

(** X10. From level 1 on the thresholds grow: the first is 100 and each
    exceeds the one before it by at least 45, so a level-up never lowers
    [xpToNext]. *)
Theorem xpThreshold_grows (level : Z) :
  (1 <= level)%Z ->
  xpThreshold 1 = 100%Z /\
  (xpThreshold level + 45 <= xpThreshold (level + 1))%Z.
Proof.
  intros Hl. split; [reflexivity|].
  unfold xpThreshold.
  replace (level + 1 - 1)%Z with (level - 1 + 1)%Z by lia.
  set (a := 100 * 1.45 ^ (level - 1)).
  assert (Ha : 100 <= a).
  { subst a.
    assert (H1 : 1 <= 1.45 ^ (level - 1))
      by (apply Qpower_1_le; [discriminate | lia]).
    revert H1. generalize (1.45 ^ (level - 1)). intros p Hp. lra. }
  assert (Hnext : 100 * 1.45 ^ (level - 1 + 1) == a * 1.45).
  { subst a. rewrite Qpower_145_succ. ring. }
  rewrite (Qfloor_comp _ _ Hnext).
  destruct (Qfloor_bounds a) as [Hlo _].
  assert (H : inject_Z (Qfloor a + 45) <= a * 1.45).
  { rewrite inject_Z_plus. change (inject_Z 45) with 45. lra. }
  apply Qfloor_resp_le in H. rewrite Qfloor_Z in H. exact H.
Qed.

Lemma xpThreshold_grows_witness :
  (xpThreshold 1 + 45 <= xpThreshold 2)%Z /\
  (xpThreshold 2 + 45 <= xpThreshold 3)%Z.
Proof.
  split.
  - apply (xpThreshold_grows 1). lia.
  - apply (xpThreshold_grows 2). lia.
Defined.

Lemma levelUp_pushesOwed (s : PlayingState) :
  pushesOwed (levelUp s) = pushesOwed s.
Proof.
  unfold pushesOwed. rewrite levelUp_stateManager, levelUp_gameData.
  cbn [playerLevel with_progress].
  unfold upgradePushes. rewrite List.filter_app, length_app. simpl. lia.
Qed.

Lemma gainXP_pushesOwed (amount : Q) (s : PlayingState) :
  pushesOwed (gainXP amount s) = pushesOwed s.
Proof.
  unfold pushesOwed. now rewrite gainXP_stateManager, gainXP_gameData.
Qed.

Lemma levelUpIter_level (n : nat) : forall s,
  (playerLevel (gameData s) <= playerLevel (gameData (levelUpIter n s)))%Z.
Proof.
  induction n as [|n IH]; intros s; simpl; [lia|].
  destruct (levelUpGuard s); [|lia].
  specialize (IH (levelUp s)). rewrite levelUp_gameData in IH at 1.
  cbn [playerLevel with_progress] in IH. lia.
Qed.

Lemma awardXP_level_mono (amount : Q) (s : PlayingState) :
  (playerLevel (gameData s) <= playerLevel (gameData (awardXP amount s)))%Z.
Proof.
  unfold awardXP, levelUpLoop.
  pose proof (levelUpIter_level
                (S (levelUpBound (levelUp (gainXP amount s))))
                (gainXP amount s)) as H.
  rewrite gainXP_gameData in H at 1.
  cbn [playerLevel with_progress] in H. exact H.
Qed.

(** X11. Whatever the amount and however many thresholds it crosses,
    [awardXP] never lowers [playerLevel] and makes exactly one
    [pushState('upgradeSelection')] call for each level gained. *)
Theorem awardXP_one_push_per_level (amount : Q) (s : PlayingState) :
  let s' := awardXP amount s in
  (playerLevel (gameData s) <= playerLevel (gameData s'))%Z /\
  Z.of_nat (upgradePushes (stateManager s')) =
  (Z.of_nat (upgradePushes (stateManager s))
   + (playerLevel (gameData s') - playerLevel (gameData s)))%Z.
Proof.
  intros s'. split.
  - apply awardXP_level_mono.
  - pose proof (awardXP_frame pushesOwed levelUp_pushesOwed
                  gainXP_pushesOwed amount s) as H.
    fold s' in H. unfold pushesOwed in H. lia.
Qed.

Lemma thresholdSum_succ (level : Z) :
  (1 <= level)%Z ->
  thresholdSum (level + 1) = (thresholdSum level + xpThreshold level)%Z.
Proof.
  intros Hl. unfold thresholdSum.
  replace (Z.to_nat (level + 1 - 1)) with (S (Z.to_nat (level - 1))) by lia.
  rewrite seq_S, map_app, fold_right_app. simpl.
  replace (Z.of_nat (S (Z.to_nat (level - 1)))) with level by lia.
  generalize (map (fun k => xpThreshold (Z.of_nat k))
                (seq 1 (Z.to_nat (level - 1)))).
  intros l. rewrite Z.add_0_r.
  induction l as [|a l IH]; simpl; [lia|]. rewrite IH. lia.
Qed.

(** The states the level-up loop meets in a run: the level is at least 1
    and the threshold is the one of the level. *)
Lemma levelUp_lifetimeXP (s : PlayingState) :
  (1 <= playerLevel (gameData s))%Z -> threshold_ok s ->
  lifetimeXP (levelUp s) = lifetimeXP s /\
  (1 <= playerLevel (gameData (levelUp s)))%Z.
Proof.
  intros Hl Hok. unfold lifetimeXP. rewrite levelUp_gameData.
  cbn [playerLevel xp with_progress].
  rewrite thresholdSum_succ by exact Hl.
  unfold threshold_ok in Hok. rewrite Hok. lia.
Qed.

Lemma levelUpIter_lifetimeXP (n : nat) : forall s,
  (1 <= playerLevel (gameData s))%Z -> threshold_ok s ->
  lifetimeXP (levelUpIter n s) = lifetimeXP s.
Proof.
  induction n as [|n IH]; intros s Hl Hok; simpl; [reflexivity|].
  destruct (levelUpGuard s); [|reflexivity].
  destruct (levelUp_lifetimeXP s Hl Hok) as [E Hl'].
  rewrite IH; [exact E | exact Hl' | apply levelUp_threshold_ok].
Qed.

Lemma awardXP_threshold_ok (amount : Q) (s : PlayingState) :
  threshold_ok s -> threshold_ok (awardXP amount s).
Proof.
  intros Hok.
  assert (Hok0 : threshold_ok (gainXP amount s)).
  { unfold threshold_ok in *. rewrite gainXP_gameData. exact Hok. }
  unfold awardXP, levelUpLoop.
  generalize (S (levelUpBound (levelUp (gainXP amount s)))).
  intros n. revert Hok0. generalize (gainXP amount s). clear.
  induction n as [|n IH]; intros s Hok; simpl; [exact Hok|].
  destruct (levelUpGuard s); [|exact Hok].
  apply IH, levelUp_threshold_ok.
Qed.

(** X12. XP is neither lost nor made by levelling.  In a state whose
    level is at least 1 and whose threshold is the one of its level (as
    [enter] and every level-up leave it), [awardXP] raises the XP earned
    over the run, the thresholds of the levels passed plus [xp], by
    exactly the amount applied: [floor(amount * m)] for a player whose
    [getXPMultiplier()] is [m], and [floor(amount)] when that multiplier
    is 0 or there is no player.  The threshold stays the one of the
    level. *)
Theorem awardXP_conserves_xp (amount : Q) (s : PlayingState) :
  (1 <= playerLevel (gameData s))%Z ->
  threshold_ok s ->
  (forall p, player s = Some p -> ~ getXPMultiplier p == 0 ->
     lifetimeXP (awardXP amount s)
     = (lifetimeXP s + Qfloor (amount * getXPMultiplier p))%Z) /\
  (forall p, player s = Some p -> getXPMultiplier p == 0 ->
     lifetimeXP (awardXP amount s) = (lifetimeXP s + Qfloor amount)%Z) /\
  (player s = None ->
     lifetimeXP (awardXP amount s) = (lifetimeXP s + Qfloor amount)%Z) /\
  threshold_ok (awardXP amount s).
Proof.
  intros Hl Hok.
  assert (Hok0 : threshold_ok (gainXP amount s)).
  { unfold threshold_ok in *. rewrite gainXP_gameData. exact Hok. }
  assert (Hl0 : (1 <= playerLevel (gameData (gainXP amount s)))%Z).
  { rewrite gainXP_gameData. exact Hl. }
  assert (Hgain : lifetimeXP (awardXP amount s)
                  = (lifetimeXP s + Qfloor (amount * xpMultiplierOf s))%Z).
  { unfold awardXP, levelUpLoop.
    rewrite levelUpIter_lifetimeXP by assumption.
    unfold lifetimeXP. rewrite gainXP_gameData.
    cbn [playerLevel xp with_progress]. lia. }
  split; [|split; [|split]].
  - intros p Hp Hm. rewrite Hgain. do 2 f_equal.
    unfold xpMultiplierOf. rewrite Hp.
    destruct (Qeq_bool (getXPMultiplier p) 0) eqn:E; [|reflexivity].
    apply Qeq_bool_iff in E. contradiction.
  - intros p Hp H0. rewrite Hgain. f_equal. apply Qfloor_comp.
    unfold xpMultiplierOf. rewrite Hp.
    apply Qeq_bool_iff in H0. rewrite H0. ring.
  - intros Hnone. rewrite Hgain. f_equal. apply Qfloor_comp.
    unfold xpMultiplierOf. rewrite Hnone. ring.
  - apply awardXP_threshold_ok, Hok.
Qed.

(** With a multiplier of 1.5 an award of 250 is worth 375 XP, which takes
    the player from level 1 to level 3 (100 and 145 XP) and leaves 130;
    with a multiplier of 1 an award of 80 on top of 50 makes 130. *)
Lemma awardXP_conserves_xp_witness :
  lifetimeXP (awardXP 250 (upgrade_player (progress_state 0 100 1)))
  = 375%Z /\
  playerLevel (gameData (awardXP 250 (upgrade_player (progress_state 0 100 1))))
  = 3%Z /\
  xp (gameData (awardXP 250 (upgrade_player (progress_state 0 100 1))))
  = 130%Z /\
  lifetimeXP (awardXP 80 (progress_state 50 100 1)) = 130%Z.
Proof.
  split; [|split; [|split]].
  - apply (proj1 (awardXP_conserves_xp 250
                    (upgrade_player (progress_state 0 100 1))
                    ltac:(vm_compute; discriminate) eq_refl)
             (set_stats upgraded_stats (sample_player [])) eq_refl).
    vm_compute. discriminate.
  - vm_compute. reflexivity.
  - vm_compute. reflexivity.
  - apply (proj1 (awardXP_conserves_xp 80 (progress_state 50 100 1)
                    ltac:(vm_compute; discriminate) eq_refl)
             (sample_player []) eq_refl).
    vm_compute. discriminate.
Defined.

Lemma levelUpIter_xp_nonneg (n : nat) : forall s,
  (0 <= xp (gameData s))%Z -> (0 <= xp (gameData (levelUpIter n s)))%Z.
Proof.
  induction n as [|n IH]; intros s Hx; simpl; [exact Hx|].
  destruct (levelUpGuard s) eqn:Hg; [|exact Hx].
  apply IH. rewrite levelUp_gameData. cbn [xp with_progress].
  unfold levelUpGuard in Hg. apply Z.leb_le in Hg.
  unfold threshold_ok in *. lia.
Qed.

(** X13. An award that is not negative keeps [xp] in range: from
    [0 <= xp], in a state whose level is at least 1 and whose threshold
    is the one of its level, after [awardXP] with
    [0 <= amount * multiplier] one has [0 <= xp < xpToNext], and
    [xpToNext] is at least 100. *)
Theorem awardXP_xp_in_range (amount : Q) (s : PlayingState) :
  (1 <= playerLevel (gameData s))%Z ->
  threshold_ok s ->
  (0 <= xp (gameData s))%Z ->
  0 <= amount * xpMultiplierOf s ->
  let s' := awardXP amount s in
  (0 <= xp (gameData s') < xpToNext (gameData s'))%Z /\
  (100 <= xpToNext (gameData s'))%Z.
Proof.
  intros Hl Hok Hx Hgain s'.
  assert (Hx0 : (0 <= xp (gameData (gainXP amount s)))%Z).
  { rewrite gainXP_gameData. cbn [xp with_progress].
    apply Qfloor_resp_le in Hgain. change (Qfloor 0) with 0%Z in Hgain. lia. }
  assert (Hlt : (xp (gameData s') < xpToNext (gameData s'))%Z).
  { subst s'. unfold awardXP.
    pose proof (levelUpLoop_done (gainXP amount s)) as Hd.
    unfold levelUpGuard in Hd. apply Z.leb_gt in Hd. exact Hd. }
  assert (Hnn : (0 <= xp (gameData s'))%Z).
  { subst s'. unfold awardXP, levelUpLoop.
    apply levelUpIter_xp_nonneg, Hx0. }
  split; [lia|].
  pose proof (awardXP_threshold_ok amount s Hok) as Hok'.
  fold s' in Hok'. unfold threshold_ok in Hok'. rewrite Hok'.
  apply xpThreshold_ge_100.
  pose proof (awardXP_level_mono amount s) as Hmono.
  fold s' in Hmono. lia.
Qed.

Lemma awardXP_xp_in_range_witness :
  (0 <= xp (gameData (awardXP 250 (progress_state 0 100 1)))
   < xpToNext (gameData (awardXP 250 (progress_state 0 100 1))))%Z.
Proof.
  apply (awardXP_xp_in_range 250 (progress_state 0 100 1)).
  - vm_compute. discriminate.
  - reflexivity.
  - vm_compute. discriminate.
  - vm_compute. discriminate.
Defined.

(** ** The spawn scheduler over several ticks *)

Lemma Qle_bool_false (a b : Q) : Qle_bool a b = false <-> b < a.
Proof.
  split; intros H.
  - apply Qnot_le_lt. intros Hle. apply Qle_bool_iff in Hle. congruence.
  - destruct (Qle_bool a b) eqn:E; [|reflexivity].
    apply Qle_bool_iff in E. lra.
Qed.

Section SchedulerFacts.

Variable Kid_new : Q -> Q -> Z -> Kid.

(** The three ways a call of [updateKidSpawning] can go. *)
Lemma updateKidSpawning_cases (deltaTime : Q) (rnd : Random)
    (s : PlayingState) :
  let s' := updateKidSpawning Kid_new deltaTime rnd s in
  let count := Z.of_nat (length (kids s)) in
  let waited := set_kidSpawnTimer (kidSpawnTimer s - deltaTime) (ramp s) in
  ((maxKids (ramp s) <= count)%Z /\ s' = ramp s) \/
  ((count < maxKids (ramp s))%Z /\ 0 < kidSpawnTimer s - deltaTime /\
   s' = waited) \/
  ((count < maxKids (ramp s))%Z /\ kidSpawnTimer s - deltaTime <= 0 /\
   exists p, p ∈ spawnPoints /\
     s' = set_kidSpawnTimer (kidSpawnInterval s)
            (set_kids
               (kids s ++
                  [Kid_new (fst p) (snd p)
                     (aggressionFor (elapsedTime (gameData s) / 60))])
               waited)).
Proof.
  intros s' count waited. subst s'. unfold updateKidSpawning.
  destruct (ramp_frame s) as (Hk & Ht & Hi).
  rewrite Hk. fold count.
  destruct (maxKids (ramp s) <=? count)%Z eqn:Hc.
  - left. apply Z.leb_le in Hc. split; [exact Hc | reflexivity].
  - right. apply Z.leb_gt in Hc.
    cbn [kidSpawnTimer kids kidSpawnInterval set_kidSpawnTimer].
    rewrite Hk, Ht, Hi. fold waited.
    destruct (Qle_bool (kidSpawnTimer s - deltaTime) 0) eqn:Hz.
    + right. apply Qle_bool_iff in Hz.
      split; [exact Hc|]. split; [exact Hz|].
      destruct (spawnPoint_exists rnd) as (p & Hp & Hin).
      exists p. split; [exact Hin|]. rewrite Hp. reflexivity.
    + left. apply Qle_bool_false in Hz. repeat split; assumption.
Qed.

Lemma ramp_maxKids_le_10 (s : PlayingState) :
  (maxKids s <= 10)%Z -> (maxKids (ramp s) <= 10)%Z.
Proof. unfold ramp. cbv zeta. repeat case_match; simpl; lia. Qed.

Lemma schedulerTick_step (s : PlayingState) (input : Q * Random) :
  let s' := schedulerTick Kid_new s input in
  maxKids s' = maxKids (ramp (advanceTime (fst input) s)) /\
  (kids s' = kids s \/
   (exists k, kids s' = kids s ++ [k]) /\
   (Z.of_nat (length (kids s)) < maxKids s')%Z).
Proof.
  intros s'. subst s'. unfold schedulerTick.
  set (s0 := advanceTime (fst input) s).
  change (kids s) with (kids s0).
  destruct (ramp_frame s0) as (Hk & _ & _).
  destruct (updateKidSpawning_cases (fst input) (snd input) s0)
    as [[_ E] | [(_ & _ & E) | (Hc & _ & p & _ & E)]]; rewrite E.
  - split; [reflexivity | left; exact Hk].
  - split; [reflexivity | left; exact Hk].
  - split; [reflexivity|]. right. split; [eexists; reflexivity | exact Hc].
Qed.

(** X14. The scheduler never takes the number of kids above the cap: a
    tick leaves the kids as they are or appends one, and appends only
    while there are fewer than [maxKids]; over any number of ticks, from a
    cap of at most 10, the kids never number more than 10 unless they did
    from the start. *)
Theorem scheduler_respects_cap (inputs : list (Q * Random))
    (s : PlayingState) :
  (maxKids s <= 10)%Z ->
  (forall input,
     let s' := schedulerTick Kid_new s input in
     kids s' = kids s \/
     (exists k, kids s' = kids s ++ [k]) /\
     (Z.of_nat (length (kids s')) <= maxKids s')%Z) /\
  (Z.of_nat (length (kids (schedulerRun Kid_new inputs s)))
   <= Z.max 10 (Z.of_nat (length (kids s))))%Z /\
  (exists added, kids (schedulerRun Kid_new inputs s) = kids s ++ added).
Proof.
  intros Hcap. split; [|].
  - intros input s'.
    destruct (schedulerTick_step s input) as [_ [H | [[k Hk] Hlt]]];
      fold s' in H || fold s' in Hk, Hlt.
    + left. exact H.
    + right. split; [exists k; exact Hk|].
      rewrite Hk, length_app. simpl. lia.
  - revert s Hcap. induction inputs as [|input inputs IH]; intros s Hcap.
    + split; [simpl; lia | exists []; now rewrite app_nil_r].
    + destruct (schedulerTick_step s input) as [Hmax Hkids].
      assert (Hcap' : (maxKids (schedulerTick Kid_new s input) <= 10)%Z).
      { rewrite Hmax. apply ramp_maxKids_le_10. exact Hcap. }
      destruct (IH _ Hcap') as [Hlen [added Hadd]].
      change (schedulerRun Kid_new (input :: inputs) s)
        with (schedulerRun Kid_new inputs (schedulerTick Kid_new s input)).
      destruct Hkids as [Hk | [[k Hk] Hlt]].
      * rewrite Hk in Hlen, Hadd. split; [exact Hlen | exists added; exact Hadd].
      * split.
        -- rewrite Hk, length_app in Hlen. simpl in Hlen. lia.
        -- exists (k :: added). rewrite Hadd, Hk, <- app_assoc. reflexivity.
Qed.

Lemma ramp_consistent (s : PlayingState) :
  capConsistent s ->
  capConsistent (ramp s) /\ (maxKids s <= maxKids (ramp s))%Z.
Proof.
  unfold capConsistent, ramp. cbv zeta.
  set (m := elapsedTime (gameData s) / 60).
  intros Hc.
  destruct (Qltb 5 m) eqn:E5.
  - apply Qltb_lt in E5. cbn [maxKids set_maxKids gameData].
    fold m. split; [right; right; split; [reflexivity | exact E5]|].
    destruct Hc as [-> | [[-> _] | [-> _]]]; lia.
  - apply Qltb_ge in E5. destruct (Qltb 2 m) eqn:E2.
    + apply Qltb_lt in E2. cbn [maxKids set_maxKids gameData].
      fold m. split; [right; left; split; [reflexivity | exact E2]|].
      destruct Hc as [-> | [[-> _] | [_ H]]]; [lia | lia | lra].
    + split; [exact Hc | lia].
Qed.

Lemma advanceTime_consistent (deltaTime : Q) (s : PlayingState) :
  0 <= deltaTime -> capConsistent s -> capConsistent (advanceTime deltaTime s).
Proof.
  unfold capConsistent. cbv zeta.
  change (maxKids (advanceTime deltaTime s)) with (maxKids s).
  change (elapsedTime (gameData (advanceTime deltaTime s)))
    with (elapsedTime (gameData s) + deltaTime).
  intros Hd Hc.
  assert (Hm : elapsedTime (gameData s) / 60
               <= (elapsedTime (gameData s) + deltaTime) / 60).
  { unfold Qdiv. change (/ 60) with (1 # 60). lra. }
  destruct Hc as [H | [[H H2] | [H H5]]].
  - left. exact H.
  - right. left. split; [exact H | lra].
  - right. right. split; [exact H | lra].
Qed.

Lemma schedulerTick_consistent (s : PlayingState) (input : Q * Random) :
  0 <= fst input -> capConsistent s ->
  capConsistent (schedulerTick Kid_new s input) /\
  (maxKids s <= maxKids (schedulerTick Kid_new s input))%Z.
Proof.
  intros Hd Hc.
  apply (advanceTime_consistent _ _ Hd) in Hc.
  apply ramp_consistent in Hc.
  change (maxKids (advanceTime (fst input) s)) with (maxKids s) in Hc.
  unfold schedulerTick. set (s0 := advanceTime (fst input) s) in *.
  assert (Hsame : maxKids (updateKidSpawning Kid_new (fst input) (snd input) s0)
                  = maxKids (ramp s0) /\
                  elapsedTime (gameData (updateKidSpawning Kid_new (fst input)
                                           (snd input) s0))
                  = elapsedTime (gameData (ramp s0))).
  { destruct (updateKidSpawning_cases (fst input) (snd input) s0)
      as [[_ E] | [(_ & _ & E) | (_ & _ & p & _ & E)]]; rewrite E;
      split; reflexivity. }
  destruct Hsame as [Em Ee]. destruct Hc as [Hc Hle].
  unfold capConsistent in *. cbv zeta in *. rewrite Em, Ee.
  split; [exact Hc | exact Hle].
Qed.

Lemma schedulerTick_cap (s : PlayingState) (input : Q * Random) :
  let s' := schedulerTick Kid_new s input in
  let minutes := elapsedTime (gameData s') / 60 in
  elapsedTime (gameData s') = elapsedTime (gameData s) + fst input /\
  maxKids s' = (if Qltb 5 minutes then 10%Z
                else if Qltb 2 minutes then 5%Z else maxKids s).
Proof.
  intros s' minutes. subst minutes s'. unfold schedulerTick.
  set (s0 := advanceTime (fst input) s).
  assert (Hsame : maxKids (updateKidSpawning Kid_new (fst input) (snd input) s0)
                  = maxKids (ramp s0) /\
                  elapsedTime (gameData (updateKidSpawning Kid_new (fst input)
                                           (snd input) s0))
                  = elapsedTime (gameData s0)).
  { destruct (updateKidSpawning_cases (fst input) (snd input) s0)
      as [[_ E] | [(_ & _ & E) | (_ & _ & p & _ & E)]]; rewrite E;
      (split; [reflexivity|]);
      cbn [gameData set_kidSpawnTimer set_kids];
      unfold ramp; cbv zeta; repeat case_match; reflexivity. }
  destruct Hsame as [Em Ee]. rewrite Em, Ee.
  split; [reflexivity|].
  unfold ramp. cbv zeta. repeat case_match; reflexivity.
Qed.

Lemma schedulerRun_elapsed (inputs : list (Q * Random)) : forall s,
  Forall (fun d => 0 <= d) (map fst inputs) ->
  elapsedTime (gameData s)
  <= elapsedTime (gameData (schedulerRun Kid_new inputs s)).
Proof.
  induction inputs as [|input inputs IH]; intros s Hpos; [apply Qle_refl|].
  change (schedulerRun Kid_new (input :: inputs) s)
    with (schedulerRun Kid_new inputs (schedulerTick Kid_new s input)).
  simpl in Hpos. inversion Hpos as [|? ? Hd Hrest]; subst.
  specialize (IH (schedulerTick Kid_new s input) Hrest).
  destruct (schedulerTick_cap s input) as [Ee _]. rewrite Ee in IH. lra.
Qed.

Lemma schedulerRun_early (inputs : list (Q * Random)) : forall s,
  Forall (fun d => 0 <= d) (map fst inputs) ->
  elapsedTime (gameData (schedulerRun Kid_new inputs s)) / 60 <= 2 ->
  maxKids (schedulerRun Kid_new inputs s) = maxKids s.
Proof.
  induction inputs as [|input inputs IH]; intros s Hpos Hm; [reflexivity|].
  change (schedulerRun Kid_new (input :: inputs) s)
    with (schedulerRun Kid_new inputs (schedulerTick Kid_new s input)) in *.
  simpl in Hpos. inversion Hpos as [|? ? Hd Hrest]; subst.
  rewrite (IH _ Hrest Hm).
  pose proof (schedulerRun_elapsed inputs (schedulerTick Kid_new s input)
                Hrest) as Hle.
  destruct (schedulerTick_cap s input) as [_ Ec]. rewrite Ec.
  assert (H1 : elapsedTime (gameData (schedulerTick Kid_new s input)) / 60
               <= 2).
  { unfold Qdiv in *. change (/ 60) with (1 # 60) in *. lra. }
  destruct (Qltb 5 _) eqn:E5; [apply Qltb_lt in E5; lra|].
  destruct (Qltb 2 _) eqn:E2; [apply Qltb_lt in E2; lra|].
  reflexivity.
Qed.

Lemma schedulerRun_consistent (inputs : list (Q * Random)) : forall s,
  Forall (fun d => 0 <= d) (map fst inputs) ->
  capConsistent s ->
  (maxKids s <= maxKids (schedulerRun Kid_new inputs s))%Z /\
  capConsistent (schedulerRun Kid_new inputs s).
Proof.
  induction inputs as [|input inputs IH]; intros s Hpos Hc.
  - split; [simpl; lia | exact Hc].
  - simpl in Hpos. inversion Hpos as [|? ? Hd Hrest]; subst.
    destruct (schedulerTick_consistent s input Hd Hc) as [Hc1 Hle1].
    destruct (IH _ Hrest Hc1) as [Hle Hc'].
    change (schedulerRun Kid_new (input :: inputs) s)
      with (schedulerRun Kid_new inputs (schedulerTick Kid_new s input)).
    split; [lia | exact Hc'].
Qed.

(** X16. The cap follows the clock.  After a run of one tick or more,
    all with [deltaTime >= 0], [maxKids] is 10 when more than five
    minutes have elapsed, 5 when more than two and at most five have, and
    still the value the run started with when at most two have.  So from
    a cap that fits its elapsed time (as the 3 that [enter] sets does),
    [maxKids] is never lowered between any two points of the run and is
    always one of 3, 5 and 10. *)
Theorem maxKids_never_shrinks (inputs later : list (Q * Random))
    (last : Q * Random) (s : PlayingState) :
  Forall (fun d => 0 <= d) (map fst (inputs ++ [last] ++ later)) ->
  let s' := schedulerRun Kid_new (inputs ++ [last]) s in
  let minutes := elapsedTime (gameData s') / 60 in
  (5 < minutes -> maxKids s' = 10%Z) /\
  (2 < minutes -> minutes <= 5 -> maxKids s' = 5%Z) /\
  (minutes <= 2 -> maxKids s' = maxKids s) /\
  (capConsistent s ->
   (maxKids s <= maxKids s')%Z /\
   (maxKids s' <= maxKids (schedulerRun Kid_new later s'))%Z /\
   (maxKids s' = 3%Z \/ maxKids s' = 5%Z \/ maxKids s' = 10%Z)).
Proof.
  intros Hpos s' minutes.
  rewrite map_app in Hpos. apply Forall_app in Hpos.
  destruct Hpos as [Hpos Hpos2].
  rewrite map_app in Hpos2. apply Forall_app in Hpos2.
  destruct Hpos2 as [Hlast Hlater].
  inversion Hlast as [|? ? Hd _]; subst.
  assert (Hrun : s' = schedulerTick Kid_new (schedulerRun Kid_new inputs s)
                        last).
  { subst s'. unfold schedulerRun. rewrite fold_left_app. reflexivity. }
  destruct (schedulerTick_cap (schedulerRun Kid_new inputs s) last)
    as [Ee Ec].
  rewrite <- Hrun in Ee, Ec. fold minutes in Ec.
  split; [|split; [|split]].
  - intros H5. apply Qltb_lt in H5. rewrite Ec, H5. reflexivity.
  - intros H2 H5. apply Qltb_lt in H2. apply Qltb_ge in H5.
    rewrite Ec, H5, H2. reflexivity.
  - intros H2. rewrite Ec.
    destruct (Qltb 5 minutes) eqn:E5; [apply Qltb_lt in E5; lra|].
    destruct (Qltb 2 minutes) eqn:E2; [apply Qltb_lt in E2; lra|].
    apply schedulerRun_early; [exact Hpos|].
    subst minutes. rewrite Ee in H2.
    unfold Qdiv in *. change (/ 60) with (1 # 60) in *. lra.
  - intros Hc.
    assert (Hall : Forall (fun d => 0 <= d) (map fst (inputs ++ [last]))).
    { rewrite map_app. apply Forall_app. split; assumption. }
    destruct (schedulerRun_consistent (inputs ++ [last]) s Hall Hc)
      as [Hle Hc'].
    fold s' in Hle, Hc'.
    destruct (schedulerRun_consistent later s' Hlater Hc') as [Hle' _].
    split; [exact Hle|]. split; [exact Hle'|].
    destruct Hc' as [E | [[E _] | [E _]]]; tauto.
Qed.

End SchedulerFacts.

(** ** The spawn timer over several ticks, in doubles *)

Lemma rounded_wait_step (a P t d S f : Q) :
  0 <= a -> a <= 1 -> 0 <= P -> P <= 1 -> 0 <= d -> 0 <= S ->
  d + S < a * P * t -> (0 <= t - d -> a * (t - d) <= f) ->
  0 < f /\ S < P * f /\ S < P * t.
Proof.
  intros Ha0 Ha1 HP0 HP1 Hd HS Hlt Hf.
  assert (HaP : 0 <= a * P) by (apply Qmult_le_0_compat; lra).
  assert (HaP1 : 0 <= 1 - a * P).
  { assert (0 <= (1 - a) * P) by (apply Qmult_le_0_compat; lra). lra. }
  assert (Ht : 0 < t).
  { apply Qnot_le_lt. intros Hle.
    assert (0 <= (a * P) * (- t)) by (apply Qmult_le_0_compat; lra). lra. }
  assert (Hdt : d < t).
  { assert (0 <= (1 - a * P) * t) by (apply Qmult_le_0_compat; lra). lra. }
  assert (Hfl : a * (t - d) <= f) by (apply Hf; lra).
  assert (HPf : P * (a * (t - d)) <= P * f).
  { assert (0 <= P * (f - a * (t - d)))
      by (apply Qmult_le_0_compat; lra). lra. }
  assert (Hd2 : 0 <= (1 - a * P) * d) by (apply Qmult_le_0_compat; lra).
  assert (Ht2 : 0 <= ((1 - a) * P) * t)
    by (apply Qmult_le_0_compat; [apply Qmult_le_0_compat|]; lra).
  split; [|split; lra].
  assert (Ha : 0 < a).
  { apply Qnot_le_lt. intros Hle. assert (E : a == 0) by lra.
    rewrite E in Hlt. lra. }
  assert (0 < a * (t - d)) by (apply Qmult_lt_0_compat; lra). lra.
Qed.

Lemma ramp_fl_frame (fl : Q -> Q) (s : PlayingState) :
  kids (ramp_fl fl s) = kids s /\
  kidSpawnTimer (ramp_fl fl s) = kidSpawnTimer s /\
  kidSpawnInterval (ramp_fl fl s) = kidSpawnInterval s.
Proof. unfold ramp_fl. cbv zeta. repeat case_match; repeat split. Qed.

Lemma updateKidSpawning_fl_exact (Kid_new : Q -> Q -> Z -> Kid)
    (deltaTime : Q) (rnd : Random) (s : PlayingState) :
  updateKidSpawning_fl (fun v => v) Kid_new deltaTime rnd s
  = updateKidSpawning Kid_new deltaTime rnd s.
Proof. reflexivity. Qed.

Section SchedulerRounded.

(** The rounding and its unit roundoff [u], 2^-53 for doubles rounded to
    nearest: a result that is not negative loses at most the fraction [u]
    of its value. *)
Variable fl : Q -> Q.
Variable u : Q.
Hypothesis u_range : 0 <= u /\ u <= 1.
Hypothesis fl_lower : forall v, 0 <= v -> (1 - u) * v <= fl v.

Variable Kid_new : Q -> Q -> Z -> Kid.

(** What a tick does to the kids and the timer: nothing at the cap, a
    rounded decrement that stays positive, or a spawn and a reset. *)
Lemma schedulerTick_fl_timer (s : PlayingState) (input : Q * Random) :
  let s' := schedulerTick_fl fl Kid_new s input in
  let waited := fl (kidSpawnTimer s - fst input) in
  kidSpawnInterval s' = kidSpawnInterval s /\
  ((kids s' = kids s /\
    (kidSpawnTimer s' = kidSpawnTimer s \/
     kidSpawnTimer s' = waited /\ 0 < waited)) \/
   ((exists k, kids s' = kids s ++ [k]) /\
    waited <= 0 /\
    kidSpawnTimer s' = kidSpawnInterval s)).
Proof.
  intros s' waited. subst s' waited.
  unfold schedulerTick_fl, updateKidSpawning_fl. cbv zeta.
  set (s0 := advanceTime_fl fl (fst input) s).
  change (kids s) with (kids s0).
  change (kidSpawnTimer s) with (kidSpawnTimer s0).
  change (kidSpawnInterval s) with (kidSpawnInterval s0).
  destruct (ramp_fl_frame fl s0) as (Hk & Ht & Hi).
  destruct (maxKids (ramp_fl fl s0) <=? _)%Z.
  - split; [exact Hi|]. left. split; [exact Hk | left; exact Ht].
  - cbn [kidSpawnTimer kids kidSpawnInterval set_kidSpawnTimer set_kids].
    rewrite Hk, Ht, Hi.
    destruct (Qle_bool (fl (kidSpawnTimer s0 - fst input)) 0) eqn:Hz.
    + apply Qle_bool_iff in Hz.
      destruct (spawnPoint_exists (snd input)) as (p & Hp & _).
      rewrite Hp.
      cbn [kidSpawnTimer kids kidSpawnInterval set_kidSpawnTimer set_kids].
      split; [exact Hi|]. right.
      split; [eexists; reflexivity|]. split; [exact Hz | reflexivity].
    + apply Qle_bool_false in Hz.
      cbn [kidSpawnTimer kids kidSpawnInterval set_kidSpawnTimer set_kids].
      split; [exact Hi|]. left.
      split; [exact Hk|]. right. split; [reflexivity | exact Hz].
Qed.

Lemma no_spawn_before_timer (inputs : list (Q * Random)) : forall s,
  Forall (fun d => 0 <= d) (map fst inputs) ->
  Qsum (map fst inputs) < Qpow (1 - u) (length inputs) * kidSpawnTimer s ->
  kids (schedulerRun_fl fl Kid_new inputs s) = kids s.
Proof.
  destruct u_range as [Hu0 Hu1].
  induction inputs as [|input inputs IH]; intros s Hpos Hsum; [reflexivity|].
  change (schedulerRun_fl fl Kid_new (input :: inputs) s)
    with (schedulerRun_fl fl Kid_new inputs
            (schedulerTick_fl fl Kid_new s input)).
  simpl in Hpos. inversion Hpos as [|? ? Hd Hrest]; subst.
  pose proof (Qsum_nonneg _ Hrest) as Hnn.
  pose proof (Qpow_range (1 - u) (length inputs)) as [HP0 HP1];
    [lra | lra |].
  cbn [length Qpow map Qsum fold_right] in Hsum.
  fold (Qsum (map fst inputs)) in Hsum.
  destruct (rounded_wait_step (1 - u) (Qpow (1 - u) (length inputs))
              (kidSpawnTimer s) (fst input) (Qsum (map fst inputs))
              (fl (kidSpawnTimer s - fst input))
              ltac:(lra) ltac:(lra) HP0 HP1 Hd Hnn
              ltac:(lra) (fl_lower _)) as (Hf & Hnext & Hsame).
  destruct (schedulerTick_fl_timer s input)
    as [_ [[Hk [Ht | [Ht _]]] | (_ & Hz & _)]].
  - rewrite IH; [exact Hk | exact Hrest | rewrite Ht; exact Hsame].
  - rewrite IH; [exact Hk | exact Hrest | rewrite Ht; exact Hnext].
  - lra.
Qed.

(** X15. Spawns keep their distance, rounding included.  Let the ticks
    have [deltaTime >= 0] and let every subtraction lose at most the
    fraction [u] of its result.  While the time ticked over [n] ticks
    stays below [(1 - u)^n] times the spawn timer no kid is added,
    however the ticks are cut; and because a tick that adds a kid sets
    the timer to [kidSpawnInterval], the [n] ticks after a spawn add no
    further kid while their time stays below [(1 - u)^n] times the
    interval (10 seconds). *)
Theorem spawns_keep_interval (input : Q * Random)
    (inputs : list (Q * Random)) (s : PlayingState) :
  Forall (fun d => 0 <= d) (map fst inputs) ->
  (Qsum (map fst inputs) < Qpow (1 - u) (length inputs) * kidSpawnTimer s ->
   kids (schedulerRun_fl fl Kid_new inputs s) = kids s) /\
  (kids (schedulerTick_fl fl Kid_new s input) <> kids s ->
   Qsum (map fst inputs)
   < Qpow (1 - u) (length inputs) * kidSpawnInterval s ->
   kids (schedulerRun_fl fl Kid_new (input :: inputs) s)
   = kids (schedulerTick_fl fl Kid_new s input)).
Proof.
  intros Hpos. split.
  - apply no_spawn_before_timer, Hpos.
  - intros Hspawn Hsum.
    change (schedulerRun_fl fl Kid_new (input :: inputs) s)
      with (schedulerRun_fl fl Kid_new inputs
              (schedulerTick_fl fl Kid_new s input)).
    apply no_spawn_before_timer; [exact Hpos|].
    destruct (schedulerTick_fl_timer s input)
      as [_ [[Hk _] | (_ & _ & Ht)]].
    + contradiction.
    + rewrite Ht. exact Hsum.
Qed.

End SchedulerRounded.

Lemma scheduler_respects_cap_witness :
  (Z.of_nat
     (length
        (kids (schedulerRun sample_Kid_new
                 [(6%Q, sample_random); (6%Q, sample_random); (6%Q, sample_random)]
                 (scheduler_state 0 10 []))))
   <= Z.max 10 0)%Z.
Proof.
  apply (scheduler_respects_cap sample_Kid_new
           [(6%Q, sample_random); (6%Q, sample_random); (6%Q, sample_random)]
           (scheduler_state 0 10 [])).
  vm_compute. discriminate.
Defined.

(** From [enter]'s cap of 3: a tick that takes the clock to 130 s makes
    the cap 5, and one more that takes it to 330 s makes it 10. *)
Lemma maxKids_never_shrinks_witness :
  maxKids (schedulerRun sample_Kid_new ([] ++ [(130%Q, sample_random)])
             (scheduler_state 0 10 [])) = 5%Z /\
  maxKids (schedulerRun sample_Kid_new
             ([(130%Q, sample_random)] ++ [(200%Q, sample_random)])
             (scheduler_state 0 10 [])) = 10%Z.
Proof.
  split.
  - apply (proj1 (proj2 (maxKids_never_shrinks sample_Kid_new []
                           [(200%Q, sample_random)] (130%Q, sample_random)
                           (scheduler_state 0 10 [])
                           ltac:(repeat constructor; discriminate)))).
    + vm_compute. reflexivity.
    + vm_compute. discriminate.
  - apply (proj1 (maxKids_never_shrinks sample_Kid_new
                    [(130%Q, sample_random)] [] (200%Q, sample_random)
                    (scheduler_state 0 10 [])
                    ltac:(repeat constructor; discriminate))).
    vm_compute. reflexivity.
Defined.

(** With a rounding that loses a thousandth at every subtraction: a tick
    of 1 s on a timer of 0.5 s spawns a kid, and the 9 s of the next two
    ticks, less than 0.999^2 * 10, add no other. *)
Lemma spawns_keep_interval_witness :
  kids (schedulerRun_fl lossy sample_Kid_new
          ((1%Q, sample_random) :: [(4%Q, sample_random); (5%Q, sample_random)])
          (scheduler_state 0 (1 # 2) []))
  = kids (schedulerTick_fl lossy sample_Kid_new (scheduler_state 0 (1 # 2) [])
            (1%Q, sample_random)) /\
  length
    (kids (schedulerTick_fl lossy sample_Kid_new (scheduler_state 0 (1 # 2) [])
             (1%Q, sample_random))) = 1%nat.
Proof.
  split; [|vm_compute; reflexivity].
  apply (spawns_keep_interval lossy (1 # 1000)
           ltac:(split; discriminate)
           ltac:(intros v Hv; unfold lossy; lra)
           sample_Kid_new (1%Q, sample_random)
           [(4%Q, sample_random); (5%Q, sample_random)]
           (scheduler_state 0 (1 # 2) [])).
  - repeat constructor; discriminate.
  - vm_compute. intros H. apply (f_equal (@length Kid)) in H. discriminate H.
  - vm_compute. reflexivity.
Defined.

(** ** How the chaos meter moves *)

Lemma clamp_cases (hi v : Q) :
  0 <= hi ->
  (v <= 0 /\ clamp hi v == 0) \/
  (0 <= v /\ v <= hi /\ clamp hi v == v) \/
  (hi <= v /\ clamp hi v == hi).
Proof.
  intros Hhi. unfold clamp.
  destruct (Q.min_spec hi v) as [[Hm E'] | [Hm E']];
    destruct (Q.max_spec 0 (Qmin hi v)) as [[Hlt E] | [Hle E]];
    rewrite E' in *.
  - right. right. split; [lra | exact E].
  - right. right. split; [lra|]. rewrite E. lra.
  - right. left. split; [lra|]. split; [lra | exact E].
  - left. split; [lra | exact E].
Qed.

Lemma clamp_mono_up (hi c v : Q) :
  0 <= c -> c <= hi -> c <= v -> c <= clamp hi v /\ clamp hi v <= hi.
Proof.
  intros H0 H1 H2.
  destruct (clamp_cases hi v) as [[H E] | [(Ha & Hb & E) | [H E]]];
    try rewrite E; try split; lra.
Qed.

Lemma clamp_mono_down (hi c v : Q) :
  0 <= c -> c <= hi -> v <= c -> 0 <= clamp hi v /\ clamp hi v <= c.
Proof.
  intros H0 H1 H2.
  destruct (clamp_cases hi v) as [[H E] | [(Ha & Hb & E) | [H E]]];
    try rewrite E; try split; lra.
Qed.

(** X17. For a tick with [deltaTime >= 0] and a chaos level within
    [0, maxChaos]: with no book on the floor the level goes down, by
    [0.5 * deltaTime] but not below 0; with books on the floor and a
    dampening of at most 100 it does not go down and stays at most
    [maxChaos]; a dampening of exactly 100 freezes it; and a dampening
    above 100 makes the level go down while books lie on the floor. *)
Theorem updateChaos_direction (deltaTime : Q) (s : PlayingState) :
  0 <= deltaTime ->
  chaosInRange s ->
  let level := chaosLevel (gameData s) in
  let level' := chaosLevel (gameData (updateChaos deltaTime s)) in
  (booksOnFloor s = 0%nat ->
   level' == Qmax 0 (level - 0.5 * deltaTime) /\ level' <= level) /\
  ((0 < booksOnFloor s)%nat -> chaosDampeningOf s <= 100 ->
   level <= level' /\ level' <= maxChaos (gameData s)) /\
  ((0 < booksOnFloor s)%nat -> chaosDampeningOf s == 100 ->
   level' == level) /\
  ((0 < booksOnFloor s)%nat -> 100 <= chaosDampeningOf s ->
   0 <= level' /\ level' <= level).
Proof.
  intros Hdt [H0 H1] level level'. fold level in H0, H1.
  subst level'. rewrite updateChaos_chaosLevel.
  set (hi := maxChaos (gameData s)) in *.
  assert (Hgain : (0 < booksOnFloor s)%nat ->
            exists r, 0 <= r /\
              chaosDrift deltaTime s
              == level + r * (1 - chaosDampeningOf s * (1 # 100))).
  { intros Hn. unfold chaosDrift. apply Nat.ltb_lt in Hn as Hb. rewrite Hb.
    exists (inject_Z (Z.of_nat (booksOnFloor s)) * 0.1 * deltaTime).
    split.
    - apply Qmult_le_0_compat; [|exact Hdt].
      apply Qmult_le_0_compat; [|discriminate].
      change 0 with (inject_Z 0). rewrite <- Zle_Qle. lia.
    - fold level. unfold Qdiv. change (/ 100) with (1 # 100). reflexivity. }
  split; [|split; [|split]].
  - intros Hn.
    assert (Hd : chaosDrift deltaTime s <= level /\
                 Qmax 0 (chaosDrift deltaTime s)
                 == Qmax 0 (level - 0.5 * deltaTime)).
    { unfold chaosDrift. rewrite Hn. cbn [Nat.ltb Nat.leb]. fold level.
      unfold Qltb. destruct (Qle_bool level 0) eqn:E; cbn [negb].
      - apply Qle_bool_iff in E. split; [lra|].
        rewrite !Q.max_l; lra.
      - split; [lra | reflexivity]. }
    destruct Hd as [Hd Hm].
    split; [|apply (clamp_mono_down hi level); assumption].
    rewrite <- Hm. unfold clamp.
    destruct (Q.min_spec hi (chaosDrift deltaTime s)) as [[Hlt E] | [Hle E]].
    + lra.
    + rewrite E. reflexivity.
  - intros Hn Hd. destruct (Hgain Hn) as (r & Hr & E).
    apply clamp_mono_up; try assumption. rewrite E.
    assert (0 <= r * (1 - chaosDampeningOf s * (1 # 100))); [|lra].
    apply Qmult_le_0_compat; [exact Hr | lra].
  - intros Hn Hd. destruct (Hgain Hn) as (r & Hr & E).
    assert (Hz : chaosDrift deltaTime s == level).
    { rewrite E, Hd. ring. }
    apply Qle_antisym.
    + apply (clamp_mono_down hi level); try assumption. rewrite Hz. lra.
    + apply (clamp_mono_up hi level); try assumption. rewrite Hz. lra.
  - intros Hn Hd. destruct (Hgain Hn) as (r & Hr & E).
    apply clamp_mono_down; try assumption. rewrite E.
    assert (0 <= r * (chaosDampeningOf s * (1 # 100) - 1)); [|lra].
    apply Qmult_le_0_compat; [exact Hr | lra].
Qed.

Lemma updateChaos_direction_witness :
  chaosLevel (gameData (updateChaos (1 # 60) two_floor_books))
  <= maxChaos (gameData two_floor_books) /\
  chaosLevel (gameData (updateChaos 30 clear_floor_chaos_10)) == 0.
Proof.
  assert (Hr1 : chaosInRange two_floor_books) by (split; discriminate).
  assert (Hr2 : chaosInRange clear_floor_chaos_10) by (split; discriminate).
  destruct (updateChaos_direction (1 # 60) two_floor_books
              ltac:(discriminate) Hr1) as (_ & Hup & _).
  destruct (updateChaos_direction 30 clear_floor_chaos_10
              ltac:(discriminate) Hr2) as (Hdown & _).
  split.
  - apply Hup; [vm_compute; lia | discriminate].
  - rewrite (proj1 (Hdown eq_refl)). reflexivity.
Defined.

(** ** The player's capacity *)

Lemma keeps_capacity_refl (s : PlayingState) : keeps_capacity s s.
Proof. intros H. exact H. Qed.

Lemma keeps_capacity_trans (s1 s2 s3 : PlayingState) :
  keeps_capacity s1 s2 -> keeps_capacity s2 s3 -> keeps_capacity s1 s3.
Proof. intros H1 H2 H. apply H2, H1, H. Qed.

Lemma keeps_capacity_load (s s' : PlayingState) :
  load s' = load s -> keeps_capacity s s'.
Proof.
  unfold load, keeps_capacity, withinCapacity. intros E H.
  destruct (player s) as [p|], (player s') as [p'|]; simpl in E;
    try discriminate; [|exact I].
  inversion E as [[E1 E2]]. rewrite E1, E2. exact H.
Qed.

Lemma same_core_capacity (s s' : PlayingState) :
  same_core s s' -> keeps_capacity s s'.
Proof.
  intros (_ & H & _). apply keeps_capacity_load. unfold load. now rewrite H.
Qed.

Lemma gameData_step_capacity (g : GameData) (s : PlayingState) :
  keeps_capacity s (set_gameData g s).
Proof. apply keeps_capacity_load. reflexivity. Qed.

Lemma awardXP_load (amount : Q) (s : PlayingState) :
  load (awardXP amount s) = load s.
Proof.
  apply (awardXP_frame load).
  - intros s0. unfold load. rewrite levelUp_player.
    destruct (player s0); reflexivity.
  - intros a s0. unfold load. now rewrite gainXP_player.
Qed.

Lemma awardXP_capacity (amount : Q) (s : PlayingState) :
  keeps_capacity s (awardXP amount s).
Proof. apply keeps_capacity_load, awardXP_load. Qed.

Lemma pickupBook_spec (book : nat) (p p' : Player) :
  pickupBook book p = (true, p') ->
  (Z.of_nat (length (carriedBooks p)) < carrySlots (stats p))%Z /\
  p' = set_carriedBooks (carriedBooks p ++ [book]) p.
Proof.
  unfold pickupBook.
  destruct (Z.of_nat (length (carriedBooks p)) <? carrySlots (stats p))%Z
    eqn:E; intros H; inversion H.
  apply Z.ltb_lt in E. split; [exact E | reflexivity].
Qed.

Lemma pickupBook_capacity (book : nat) (p p' : Player) (s s0 : PlayingState) :
  pickupBook book p = (true, p') ->
  keeps_capacity s (set_player (Some p') s0).
Proof.
  intros Hpick _. apply pickupBook_spec in Hpick. destruct Hpick as [Hlt ->].
  unfold withinCapacity. cbn [player set_player carriedBooks stats
    set_carriedBooks]. rewrite length_app. simpl. lia.
Qed.

Lemma take_matching_length (bs : list Book) (c : Color) (l : list nat) :
  forall b rest, take_matching bs c l = Some (b, rest) ->
  length l = S (length rest) /\ matches bs c b = true.
Proof.
  induction l as [|a l IH]; intros b rest H; simpl in H; [discriminate|].
  destruct (matches bs c a) eqn:Ea.
  - inversion H; subst. split; [reflexivity | exact Ea].
  - destruct (take_matching bs c l) as [[b' rest']|]; [|discriminate].
    inversion H; subst. destruct (IH _ _ eq_refl) as [E1 E2].
    split; [simpl; now rewrite E1 | exact E2].
Qed.

Lemma shelveBook_spec (bs : list Book) (sh : Shelf) (p p' : Player)
    (book : nat) :
  shelveBook bs sh p = (Some book, p') ->
  length (carriedBooks p) = S (length (carriedBooks p')) /\
  stats p' = stats p /\ matches bs (shelf_color sh) book = true.
Proof.
  unfold shelveBook.
  destruct (take_matching bs (shelf_color sh) (carriedBooks p))
    as [[b rest]|] eqn:E; intros H; inversion H; subst.
  apply take_matching_length in E. destruct E as [E1 E2].
  repeat split; assumption.
Qed.

Lemma shelveBook_capacity (bs : list Book) (sh : Shelf) (p p' : Player)
    (book : nat) (s s0 : PlayingState) :
  shelveBook bs sh p = (Some book, p') -> player s = Some p ->
  keeps_capacity s (set_player (Some p') s0).
Proof.
  intros Hsh Hp H. apply shelveBook_spec in Hsh.
  destruct Hsh as (Hlen & Hst & _).
  unfold withinCapacity in *. rewrite Hp in H.
  cbn [player set_player]. rewrite Hst. lia.
Qed.

Ltac capacity_step :=
  lazymatch goal with
  | |- keeps_capacity _ (awardXP _ _) => apply awardXP_capacity
  | |- keeps_capacity _ (lowerChaos _ _) => apply gameData_step_capacity
  | |- keeps_capacity _ (countCollected _) => apply gameData_step_capacity
  | |- keeps_capacity _ (countShelved _) => apply gameData_step_capacity
  | |- _ => apply same_core_capacity; auto with frames
  end.

Ltac capacity_chain :=
  lazymatch goal with
  | |- keeps_capacity ?s ?s => apply keeps_capacity_refl
  | |- keeps_capacity ?s (set_player _ _) =>
      first [ eapply pickupBook_capacity; eassumption
            | eapply shelveBook_capacity; eassumption ]
  | |- keeps_capacity ?s (?f ?x) =>
      apply (keeps_capacity_trans s x (f x));
      [ capacity_chain | capacity_step ]
  end.

Lemma pickupVisit_capacity (r cx cy : Q) (s : PlayingState) (i : nat) :
  keeps_capacity s (pickupVisit r cx cy s i).
Proof. unfold pickupVisit. repeat case_match; capacity_chain. Qed.

Lemma snatchVisit_capacity (r cx cy : Q) (s : PlayingState) (i : nat) :
  keeps_capacity s (snatchVisit r cx cy s i).
Proof. unfold snatchVisit. repeat case_match; capacity_chain. Qed.

Lemma shelveVisit_capacity (r : Q) (s : PlayingState) (i : nat) :
  keeps_capacity s (shelveVisit r s i).
Proof. unfold shelveVisit. repeat case_match; capacity_chain. Qed.

Lemma applyEvent_capacity (e : ChaosEvent) (s : PlayingState) :
  keeps_capacity s (applyEvent e s).
Proof.
  destruct e as [dt | | |]; cbn [applyEvent].
  - apply keeps_capacity_load. reflexivity.
  - unfold checkBookPickup.
    destruct (player s); [|apply keeps_capacity_refl].
    apply fold_left_preorder;
      [apply keeps_capacity_refl | apply keeps_capacity_trans
      | intros; apply pickupVisit_capacity].
  - unfold checkBookSnatching.
    destruct (player s); [|apply keeps_capacity_refl].
    case_match; [apply keeps_capacity_refl|].
    apply fold_left_preorder;
      [apply keeps_capacity_refl | apply keeps_capacity_trans
      | intros; apply snatchVisit_capacity].
  - unfold checkBookShelving.
    destruct (player s); [|apply keeps_capacity_refl].
    case_match; [apply keeps_capacity_refl|].
    apply fold_left_preorder;
      [apply keeps_capacity_refl | apply keeps_capacity_trans
      | intros; apply shelveVisit_capacity].
Qed.

(** X18. The player's hands never overflow: if the player holds at most
    [carrySlots] books, then after any sequence of chaos updates and
    pickup, snatch and shelving passes the player still holds at most
    [carrySlots] books.  (The test is the one of [Player.pickupBook] as
    modelled; the passes add a book in no other way.) *)
Theorem passes_respect_capacity (events : list ChaosEvent)
    (s : PlayingState) :
  withinCapacity s -> withinCapacity (run events s).
Proof.
  revert s. induction events as [|e events IH]; intros s H; [exact H|].
  change (run (e :: events) s) with (run events (applyEvent e s)).
  apply IH, applyEvent_capacity, H.
Qed.

Lemma passes_respect_capacity_witness :
  withinCapacity
    (run [pass_snatch; pass_pickup; tick_updateChaos 1; pass_shelving]
       two_kids_in_range).
Proof.
  apply (passes_respect_capacity
           [pass_snatch; pass_pickup; tick_updateChaos 1; pass_shelving]
           two_kids_in_range).
  vm_compute. discriminate.
Defined.

Lemma fold_left_fixed {A : Type} (f : PlayingState -> A -> PlayingState)
    (l : list A) (s : PlayingState) :
  (forall a, f s a = s) -> fold_left f l s = s.
Proof.
  intros H. induction l as [|a l IH]; simpl; [reflexivity|].
  now rewrite H.
Qed.

(** X19. With full hands nothing is picked up: when the player already
    holds [carrySlots] books (or more), the pickup pass and the snatch
    pass leave the whole state as it is, so no book is taken, no kid
    loses its book, and chaos, XP and counters stay put. *)
Theorem full_hands_take_nothing (s : PlayingState) (p : Player) :
  player s = Some p ->
  (carrySlots (stats p) <= Z.of_nat (length (carriedBooks p)))%Z ->
  checkBookPickup s = s /\ checkBookSnatching s = s.
Proof.
  intros Hp Hfull. split.
  - unfold checkBookPickup. rewrite Hp. apply fold_left_fixed.
    intros i. unfold pickupVisit. rewrite Hp.
    destruct (books s !! i) as [book|]; [|reflexivity].
    destruct (isHeld book || isShelved book); [reflexivity|].
    destruct (distance_le _ _ _ _ _); [|reflexivity].
    unfold pickupBook.
    apply Z.ltb_ge in Hfull. rewrite Hfull. reflexivity.
  - unfold checkBookSnatching. rewrite Hp.
    apply Z.leb_le in Hfull. rewrite Hfull. reflexivity.
Qed.

Lemma full_hands_take_nothing_witness :
  checkBookPickup
    (set_player (Some (sample_player [1; 2; 3]%nat)) two_floor_books)
  = set_player (Some (sample_player [1; 2; 3]%nat)) two_floor_books.
Proof.
  apply (full_hands_take_nothing
           (set_player (Some (sample_player [1; 2; 3]%nat)) two_floor_books)
           (sample_player [1; 2; 3]%nat)).
  - reflexivity.
  - vm_compute. discriminate.
Defined.

(** ** The collected counter *)

Lemma same_uncounted_refl (s : PlayingState) : same_uncounted s s.
Proof. reflexivity. Qed.

Lemma same_uncounted_trans (s1 s2 s3 : PlayingState) :
  same_uncounted s1 s2 -> same_uncounted s2 s3 -> same_uncounted s1 s3.
Proof. unfold same_uncounted. intros H1 H2. now rewrite H2. Qed.

Lemma same_core_uncounted (s s' : PlayingState) :
  same_core s s' -> same_uncounted s s'.
Proof.
  intros (Hg & Hp & _). unfold same_uncounted, uncounted, carriedByPlayer.
  now rewrite Hg, Hp.
Qed.

Lemma lowerChaos_uncounted (delta : Q) (s : PlayingState) :
  same_uncounted s (lowerChaos delta s).
Proof. reflexivity. Qed.

Lemma awardXP_booksCollected (amount : Q) (s : PlayingState) :
  booksCollected (gameData (awardXP amount s)) = booksCollected (gameData s).
Proof.
  apply (awardXP_frame (fun s => booksCollected (gameData s))).
  - intros s0. now rewrite levelUp_gameData.
  - intros a s0. now rewrite gainXP_gameData.
Qed.

Lemma awardXP_uncounted (amount : Q) (s : PlayingState) :
  same_uncounted s (awardXP amount s).
Proof.
  unfold same_uncounted, uncounted.
  now rewrite awardXP_carriedByPlayer, awardXP_booksCollected.
Qed.

(** A book taken and counted: the three statements that follow a
    successful [pickupBook]. *)
Lemma taken_and_counted (book : nat) (p p' : Player) (s : PlayingState) :
  pickupBook book p = (true, p') -> player s = Some p ->
  same_uncounted s (countCollected (markHeld book (set_player (Some p') s))).
Proof.
  intros Hpick Hp. apply pickupBook_spec in Hpick. destruct Hpick as [_ ->].
  unfold same_uncounted, uncounted, carriedByPlayer.
  cbn [player gameData countCollected markHeld set_books set_player
       set_gameData booksCollected with_booksCollected carriedBooks
       set_carriedBooks].
  rewrite Hp, length_app. simpl. lia.
Qed.

Ltac uncounted_step :=
  lazymatch goal with
  | |- same_uncounted _ (awardXP _ _) => apply awardXP_uncounted
  | |- same_uncounted _ (lowerChaos _ _) => apply lowerChaos_uncounted
  | |- _ => apply same_core_uncounted; auto with frames
  end.

Ltac uncounted_chain :=
  lazymatch goal with
  | |- same_uncounted ?s ?s => apply same_uncounted_refl
  | |- same_uncounted ?s (countCollected (markHeld _ (set_player _ ?x))) =>
      apply (same_uncounted_trans s x);
      [ uncounted_chain | eapply taken_and_counted; eassumption ]
  | |- same_uncounted ?s (?f ?x) =>
      apply (same_uncounted_trans s x (f x));
      [ uncounted_chain | uncounted_step ]
  end.

Lemma pickupVisit_uncounted (r cx cy : Q) (s : PlayingState) (i : nat) :
  same_uncounted s (pickupVisit r cx cy s i).
Proof. unfold pickupVisit. repeat case_match; uncounted_chain. Qed.

Lemma snatchVisit_uncounted (r cx cy : Q) (s : PlayingState) (i : nat) :
  same_uncounted s (snatchVisit r cx cy s i).
Proof. unfold snatchVisit. repeat case_match; uncounted_chain. Qed.

(** X20. [booksCollected] counts exactly the books that reach the
    player's hands: over a pickup pass and over a snatch pass the counter
    grows by the number of books the player's held list grows by. *)
Theorem booksCollected_counts_books_taken (s : PlayingState) :
  (booksCollected (gameData (checkBookPickup s))
   - booksCollected (gameData s)
   = Z.of_nat (length (carriedByPlayer (checkBookPickup s)))
     - Z.of_nat (length (carriedByPlayer s)))%Z /\
  (booksCollected (gameData (checkBookSnatching s))
   - booksCollected (gameData s)
   = Z.of_nat (length (carriedByPlayer (checkBookSnatching s)))
     - Z.of_nat (length (carriedByPlayer s)))%Z.
Proof.
  assert (H1 : same_uncounted s (checkBookPickup s)).
  { unfold checkBookPickup.
    destruct (player s); [|apply same_uncounted_refl].
    apply fold_left_preorder;
      [apply same_uncounted_refl | apply same_uncounted_trans
      | intros; apply pickupVisit_uncounted]. }
  assert (H2 : same_uncounted s (checkBookSnatching s)).
  { unfold checkBookSnatching.
    destruct (player s); [|apply same_uncounted_refl].
    case_match; [apply same_uncounted_refl|].
    apply fold_left_preorder;
      [apply same_uncounted_refl | apply same_uncounted_trans
      | intros; apply snatchVisit_uncounted]. }
  unfold same_uncounted, uncounted in H1, H2. lia.
Qed.

(** ** References to books *)

Lemma same_references_refl (s : PlayingState) : same_references s s.
Proof. intros j. reflexivity. Qed.

Lemma same_references_trans (s1 s2 s3 : PlayingState) :
  same_references s1 s2 -> same_references s2 s3 -> same_references s1 s3.
Proof. intros H1 H2 j. now rewrite H2. Qed.

Lemma same_owners_references (s s' : PlayingState) :
  same_owners s s' -> same_references s s'.
Proof.
  intros (Hb & Hc & Hk & Hs) j.
  unfold references, onFloorRefs, heldRefs, shelfRefs.
  rewrite Hb, Hk, Hs. f_equal. f_equal.
  unfold carriedByPlayer in Hc.
  destruct (player s) as [p|], (player s') as [p'|]; simpl in *;
    try rewrite Hc; try reflexivity.
  - now rewrite <- Hc.
Qed.

Lemma awardXP_owners (amount : Q) (s : PlayingState) :
  same_owners s (awardXP amount s).
Proof.
  repeat split.
  - apply (awardXP_frame books).
    + intros s0. destruct s0 as [? pl ? ? ? ? ? ? ? ? ? ?]; now destruct pl.
    + intros a s0. destruct s0 as [? pl ? ? ? ? pool ? ? ? ? ?].
      destruct pl, pool; reflexivity.
  - apply awardXP_carriedByPlayer.
  - apply (awardXP_frame kids).
    + intros s0. destruct s0 as [? pl ? ? ? ? ? ? ? ? ? ?]; now destruct pl.
    + intros a s0. destruct s0 as [? pl ? ? ? ? pool ? ? ? ? ?].
      destruct pl, pool; reflexivity.
  - apply (awardXP_frame shelves).
    + intros s0. destruct s0 as [? pl ? ? ? ? ? ? ? ? ? ?]; now destruct pl.
    + intros a s0. destruct s0 as [? pl ? ? ? ? pool ? ? ? ? ?].
      destruct pl, pool; reflexivity.
Qed.

Lemma gameData_step_owners (g : GameData) (s : PlayingState) :
  same_owners s (set_gameData g s).
Proof. repeat split. Qed.

Lemma call_audio_owners (c : AudioCall) (s : PlayingState) :
  same_owners s (call_audio c s).
Proof. repeat split. Qed.

Lemma count_nat_app (j : nat) (l1 l2 : list nat) :
  count_nat j (l1 ++ l2) = (count_nat j l1 + count_nat j l2)%nat.
Proof. unfold count_nat. now rewrite List.filter_app, length_app. Qed.

(** A floor book taken by the player: its reference moves from the floor
    to the held list, and no other book is touched. *)
Lemma floor_to_held (i : nat) (book : Book) (p p' : Player)
    (s : PlayingState) :
  books s !! i = Some book -> isHeld book || isShelved book = false ->
  player s = Some p -> pickupBook i p = (true, p') ->
  same_references s (markHeld i (set_player (Some p') s)).
Proof.
  intros Hb Hfloor Hp Hpick j.
  apply pickupBook_spec in Hpick. destruct Hpick as [_ ->].
  unfold references, onFloorRefs, heldRefs, shelfRefs.
  cbn [books player kids shelves markHeld set_books set_player
       carriedBooks set_carriedBooks].
  rewrite Hp, count_nat_app.
  assert (Hon : onFloor book = true).
  { unfold onFloor. apply orb_false_iff in Hfloor.
    destruct Hfloor as [-> ->]. reflexivity. }
  destruct (decide (j = i)) as [-> | Hne].
  - rewrite list_lookup_alter_eq, Hb. simpl. rewrite Hon.
    unfold count_nat at 2. simpl. rewrite Nat.eqb_refl. simpl. lia.
  - rewrite list_lookup_alter_ne by congruence.
    unfold count_nat at 2. simpl.
    destruct (Nat.eqb_spec j i) as [E | _]; [contradiction|]. simpl. lia.
Qed.

Ltac references_step :=
  lazymatch goal with
  | |- same_references _ (awardXP _ _) =>
      apply same_owners_references, awardXP_owners
  | |- same_references _ (lowerChaos _ _) =>
      apply same_owners_references, gameData_step_owners
  | |- same_references _ (countCollected _) =>
      apply same_owners_references, gameData_step_owners
  | |- same_references _ (playPickupSound _) =>
      apply same_owners_references, call_audio_owners
  end.

Ltac references_chain :=
  lazymatch goal with
  | |- same_references ?s ?s => apply same_references_refl
  | |- same_references ?s (markHeld _ (set_player _ ?s)) =>
      eapply floor_to_held; eassumption
  | |- same_references ?s (?f ?x) =>
      apply (same_references_trans s x (f x));
      [ references_chain | references_step ]
  end.

Lemma pickupVisit_references (r cx cy : Q) (s : PlayingState) (i : nat) :
  same_references s (pickupVisit r cx cy s i).
Proof. unfold pickupVisit. repeat case_match; references_chain. Qed.

(** X21. The pickup pass moves references, it never makes or loses one:
    for every book, the number of places that refer to it, the floor list,
    the held lists of the player and the kids and the shelves, is the
    same after [checkBookPickup] as before.  So a state in which every
    book has exactly one owner is still one after the pass. *)
Theorem pickup_pass_keeps_references (s : PlayingState) :
  (forall j, references j (checkBookPickup s) = references j s) /\
  ((forall j, (j < length (books s))%nat -> references j s = 1%nat) ->
   forall j, (j < length (books s))%nat ->
     references j (checkBookPickup s) = 1%nat).
Proof.
  assert (H : same_references s (checkBookPickup s)).
  { unfold checkBookPickup.
    destruct (player s); [|apply same_references_refl].
    apply fold_left_preorder;
      [apply same_references_refl | apply same_references_trans
      | intros; apply pickupVisit_references]. }
  split; [exact H|].
  intros Hone j Hj. rewrite H. apply Hone, Hj.
Qed.

(** ** The shelving pass *)

Lemma addBook_spec (bs : list Book) (book : nat) (sh sh' : Shelf) :
  addBook bs book sh = Some sh' ->
  shelf_books sh' = shelf_books sh ++ [book] /\
  capacity sh' = capacity sh /\
  (length (shelf_books sh) < capacity sh)%nat.
Proof.
  unfold addBook.
  destruct (matches bs (shelf_color sh) book && hasEmptySlots sh) eqn:E;
    intros H; inversion H; subst.
  apply andb_true_iff in E. destruct E as [_ E].
  unfold hasEmptySlots in E. apply Nat.ltb_lt in E.
  repeat split. exact E.
Qed.

(** A book that [shelveBook] hands over for a shelf with a free slot is
    always accepted by [addBook]. *)
Lemma addBook_accepts (bs : list Book) (sh : Shelf) (p p' : Player)
    (book : nat) :
  shelveBook bs sh p = (Some book, p') -> hasEmptySlots sh = true ->
  addBook bs book sh <> None.
Proof.
  intros Hsh Hfree. apply shelveBook_spec in Hsh.
  destruct Hsh as (_ & _ & Hm). unfold addBook. rewrite Hm, Hfree.
  discriminate.
Qed.

Lemma list_sum_insert (f : Shelf -> nat) (l : list Shelf) (i : nat)
    (sh sh' : Shelf) :
  l !! i = Some sh ->
  (list_sum (map f (<[i := sh']> l)) + f sh = list_sum (map f l) + f sh')%nat.
Proof.
  revert i. induction l as [|a l IH]; intros i H; [discriminate|].
  destruct i as [|i]; simpl in *.
  - inversion H; subst. lia.
  - specialize (IH i H). lia.
Qed.

Lemma same_ledger_refl (s : PlayingState) : same_ledger s s.
Proof. reflexivity. Qed.

Lemma same_ledger_trans (s1 s2 s3 : PlayingState) :
  same_ledger s1 s2 -> same_ledger s2 s3 -> same_ledger s1 s3.
Proof. unfold same_ledger. intros H1 H2. now rewrite H2. Qed.

Lemma awardXP_booksShelved (amount : Q) (s : PlayingState) :
  booksShelved (gameData (awardXP amount s)) = booksShelved (gameData s).
Proof.
  apply (awardXP_frame (fun s => booksShelved (gameData s))).
  - intros s0. now rewrite levelUp_gameData.
  - intros a s0. now rewrite gainXP_gameData.
Qed.

Lemma awardXP_ledger (amount : Q) (s : PlayingState) :
  same_ledger s (awardXP amount s).
Proof.
  unfold same_ledger, ledger, onShelves.
  destruct (awardXP_owners amount s) as (_ & Hc & _ & Hs).
  now rewrite Hc, Hs, awardXP_booksShelved.
Qed.

Lemma lowerChaos_ledger (delta : Q) (s : PlayingState) :
  same_ledger s (lowerChaos delta s).
Proof. reflexivity. Qed.

Lemma call_audio_ledger (c : AudioCall) (s : PlayingState) :
  same_ledger s (call_audio c s).
Proof. reflexivity. Qed.

(** A book moved from the player's hands to a shelf and counted. *)
Lemma held_to_shelf (i book : nat) (shelf shelf' : Shelf) (p p' : Player)
    (s : PlayingState) :
  shelves s !! i = Some shelf -> player s = Some p ->
  shelveBook (books s) shelf p = (Some book, p') ->
  addBook (books s) book shelf = Some shelf' ->
  same_ledger s
    (countShelved
       (markShelved book (putShelf i shelf' (set_player (Some p') s)))).
Proof.
  intros Hsh Hp Hgive Hadd.
  apply shelveBook_spec in Hgive. destruct Hgive as (Hlen & _ & _).
  apply addBook_spec in Hadd. destruct Hadd as (Hbooks & _ & _).
  pose proof (list_sum_insert (fun sh => length (shelf_books sh))
                (shelves s) i shelf shelf' Hsh) as Hsum.
  cbv beta in Hsum. rewrite Hbooks, length_app in Hsum. simpl in Hsum.
  unfold same_ledger, ledger, onShelves, carriedByPlayer.
  cbn [player gameData shelves countShelved markShelved putShelf set_books
       set_shelves set_player set_gameData booksShelved with_booksShelved].
  rewrite Hp. f_equal; lia.
Qed.

Ltac ledger_step :=
  lazymatch goal with
  | |- same_ledger _ (awardXP _ _) => apply awardXP_ledger
  | |- same_ledger _ (lowerChaos _ _) => apply lowerChaos_ledger
  | |- same_ledger _ (playShelfSound _) => apply call_audio_ledger
  end.

Ltac ledger_chain :=
  lazymatch goal with
  | |- same_ledger ?s ?s => apply same_ledger_refl
  | |- same_ledger ?s (countShelved _) => eapply held_to_shelf; eassumption
  | |- same_ledger ?s (?f ?x) =>
      apply (same_ledger_trans s x (f x)); [ ledger_chain | ledger_step ]
  end.

Lemma shelveVisit_ledger (r : Q) (s : PlayingState) (i : nat) :
  same_ledger s (shelveVisit r s i).
Proof.
  unfold shelveVisit. repeat case_match; try ledger_chain.
  exfalso.
  match goal with
  | Hg : shelveBook _ _ _ = (Some _, _), Hn : addBook _ _ _ = None,
    Hc : _ && hasEmptySlots _ = true |- _ =>
      apply andb_true_iff in Hc; destruct Hc as [_ Hc];
      exact (addBook_accepts _ _ _ _ _ Hg Hc Hn)
  end.
Qed.

Lemma keeps_shelves_refl (s : PlayingState) : keeps_shelves s s.
Proof. intros H. exact H. Qed.

Lemma keeps_shelves_trans (s1 s2 s3 : PlayingState) :
  keeps_shelves s1 s2 -> keeps_shelves s2 s3 -> keeps_shelves s1 s3.
Proof. intros H1 H2 H. apply H2, H1, H. Qed.

Lemma keeps_shelves_same (s s' : PlayingState) :
  shelves s' = shelves s -> keeps_shelves s s'.
Proof. intros E H. unfold shelvesWithin. rewrite E. exact H. Qed.

Lemma putShelf_within (i : nat) (shelf shelf' : Shelf) (book : nat)
    (bs : list Book) (s s0 : PlayingState) :
  addBook bs book shelf = Some shelf' -> shelves s0 = shelves s ->
  keeps_shelves s (putShelf i shelf' s0).
Proof.
  intros Hadd E H. apply addBook_spec in Hadd.
  destruct Hadd as (Hb & Hc & Hlt).
  unfold shelvesWithin in *. cbn [shelves putShelf set_shelves].
  rewrite E. apply Forall_insert; [exact H|].
  rewrite Hb, Hc, length_app. simpl. lia.
Qed.

Ltac shelves_chain :=
  lazymatch goal with
  | |- keeps_shelves ?s ?s => apply keeps_shelves_refl
  | |- keeps_shelves ?s (putShelf _ _ _) =>
      eapply putShelf_within; [eassumption | reflexivity]
  | |- keeps_shelves ?s (awardXP ?a ?x) =>
      apply (keeps_shelves_trans s x (awardXP a x));
      [ shelves_chain
      | apply keeps_shelves_same, (awardXP_owners a x) ]
  | |- keeps_shelves ?s (set_player ?p ?x) =>
      apply (keeps_shelves_trans s x (set_player p x));
      [ shelves_chain | apply keeps_shelves_same; reflexivity ]
  | |- keeps_shelves ?s (?f ?x) =>
      apply (keeps_shelves_trans s x (f x));
      [ shelves_chain
      | first [ apply keeps_shelves_same, gameData_step_owners
              | apply keeps_shelves_same, call_audio_owners
              | apply keeps_shelves_same; reflexivity ] ]
  end.

Lemma shelveVisit_shelves (r : Q) (s : PlayingState) (i : nat) :
  keeps_shelves s (shelveVisit r s i).
Proof. unfold shelveVisit. repeat case_match; shelves_chain. Qed.

(** X22. The shelving pass keeps its books: every book it takes from the
    player is put on a shelf and counted, so the books in the player's
    hands plus [booksShelved], and the books on the shelves less
    [booksShelved], are the same after the pass as before; and a shelf is
    never filled beyond its capacity.  (With [Player.shelveBook] and
    [Shelf.addBook] as modelled, the shelf never refuses the book it is
    handed.) *)
Theorem shelving_pass_bookkeeping (s : PlayingState) :
  ledger (checkBookShelving s) = ledger s /\
  (shelvesWithin s -> shelvesWithin (checkBookShelving s)).
Proof.
  split.
  - unfold checkBookShelving.
    destruct (player s); [|reflexivity].
    case_match; [reflexivity|].
    apply (fold_left_preorder same_ledger);
      [apply same_ledger_refl | apply same_ledger_trans
      | intros; apply shelveVisit_ledger].
  - unfold checkBookShelving.
    destruct (player s); [|exact (fun H => H)].
    case_match; [exact (fun H => H)|].
    apply (fold_left_preorder keeps_shelves);
      [apply keeps_shelves_refl | apply keeps_shelves_trans
      | intros; apply shelveVisit_shelves].
Qed.

Lemma shelving_pass_bookkeeping_witness :
  shelvesWithin (checkBookShelving (checkBookPickup (floor_book_by_shelf 0 0))).
Proof.
  apply (shelving_pass_bookkeeping (checkBookPickup (floor_book_by_shelf 0 0))).
  vm_compute. repeat constructor.
Defined.

(** ** What a tick asks of the state manager *)

Lemma only_pushes_refl (s : PlayingState) : only_pushes s s.
Proof. exists []. split; [now rewrite app_nil_r | constructor]. Qed.

Lemma only_pushes_trans (s1 s2 s3 : PlayingState) :
  only_pushes s1 s2 -> only_pushes s2 s3 -> only_pushes s1 s3.
Proof.
  intros (l1 & E1 & F1) (l2 & E2 & F2). exists (l1 ++ l2). split.
  - now rewrite E2, E1, app_assoc.
  - apply Forall_app. split; assumption.
Qed.

Lemma only_pushes_same (s s' : PlayingState) :
  stateManager s' = stateManager s -> only_pushes s s'.
Proof.
  intros E. exists []. split; [now rewrite app_nil_r | constructor].
Qed.

Lemma same_core_pushes (s s' : PlayingState) :
  same_core s s' -> only_pushes s s'.
Proof. intros (_ & _ & H). apply only_pushes_same, H. Qed.

Lemma levelUpIter_pushes (n : nat) : forall s, only_pushes s (levelUpIter n s).
Proof.
  induction n as [|n IH]; intros s; simpl; [apply only_pushes_refl|].
  destruct (levelUpGuard s); [|apply only_pushes_refl].
  eapply only_pushes_trans; [|apply IH].
  exists [pushState "upgradeSelection"]. split.
  - apply levelUp_stateManager.
  - repeat constructor.
Qed.

Lemma awardXP_pushes (amount : Q) (s : PlayingState) :
  only_pushes s (awardXP amount s).
Proof.
  unfold awardXP, levelUpLoop.
  eapply only_pushes_trans; [|apply levelUpIter_pushes].
  apply only_pushes_same, gainXP_stateManager.
Qed.

Lemma gameData_step_pushes (g : GameData) (s : PlayingState) :
  only_pushes s (set_gameData g s).
Proof. apply only_pushes_same. reflexivity. Qed.

Lemma set_player_pushes (p : option Player) (s : PlayingState) :
  only_pushes s (set_player p s).
Proof. apply only_pushes_same. reflexivity. Qed.

Ltac pushes_step :=
  lazymatch goal with
  | |- only_pushes _ (awardXP _ _) => apply awardXP_pushes
  | |- only_pushes _ (lowerChaos _ _) => apply gameData_step_pushes
  | |- only_pushes _ (countCollected _) => apply gameData_step_pushes
  | |- only_pushes _ (countShelved _) => apply gameData_step_pushes
  | |- only_pushes _ (set_player _ _) => apply set_player_pushes
  | |- _ => apply same_core_pushes; auto with frames
  end.

Ltac pushes_chain :=
  lazymatch goal with
  | |- only_pushes ?s ?s => apply only_pushes_refl
  | |- only_pushes ?s (?f ?x) =>
      apply (only_pushes_trans s x (f x)); [ pushes_chain | pushes_step ]
  end.

Lemma pickupVisit_pushes (r cx cy : Q) (s : PlayingState) (i : nat) :
  only_pushes s (pickupVisit r cx cy s i).
Proof. unfold pickupVisit. repeat case_match; pushes_chain. Qed.

Lemma snatchVisit_pushes (r cx cy : Q) (s : PlayingState) (i : nat) :
  only_pushes s (snatchVisit r cx cy s i).
Proof. unfold snatchVisit. repeat case_match; pushes_chain. Qed.

Lemma shelveVisit_pushes (r : Q) (s : PlayingState) (i : nat) :
  only_pushes s (shelveVisit r s i).
Proof. unfold shelveVisit. repeat case_match; pushes_chain. Qed.

Lemma checkBookPickup_pushes (s : PlayingState) :
  only_pushes s (checkBookPickup s).
Proof.
  unfold checkBookPickup. destruct (player s); [|apply only_pushes_refl].
  apply fold_left_preorder;
    [apply only_pushes_refl | apply only_pushes_trans
    | intros; apply pickupVisit_pushes].
Qed.

Lemma checkBookSnatching_pushes (s : PlayingState) :
  only_pushes s (checkBookSnatching s).
Proof.
  unfold checkBookSnatching. destruct (player s); [|apply only_pushes_refl].
  case_match; [apply only_pushes_refl|].
  apply fold_left_preorder;
    [apply only_pushes_refl | apply only_pushes_trans
    | intros; apply snatchVisit_pushes].
Qed.

Lemma checkBookShelving_pushes (s : PlayingState) :
  only_pushes s (checkBookShelving s).
Proof.
  unfold checkBookShelving. destruct (player s); [|apply only_pushes_refl].
  case_match; [apply only_pushes_refl|].
  apply fold_left_preorder;
    [apply only_pushes_refl | apply only_pushes_trans
    | intros; apply shelveVisit_pushes].
Qed.

Lemma ramp_stateManager (s : PlayingState) :
  stateManager (ramp s) = stateManager s.
Proof. unfold ramp. cbv zeta. repeat case_match; reflexivity. Qed.

Section TickRequests.

Variable Kid_new : Q -> Q -> Z -> Kid.
Variable entitiesUpdate : Q -> PlayingState -> PlayingState.

(** The entities' own updates make no call on the state manager. *)
Hypothesis entities_quiet :
  forall deltaTime s,
    stateManager (entitiesUpdate deltaTime s) = stateManager s.

Lemma updateKidSpawning_stateManager (deltaTime : Q) (rnd : Random)
    (s : PlayingState) :
  stateManager (updateKidSpawning Kid_new deltaTime rnd s) = stateManager s.
Proof.
  destruct (updateKidSpawning_cases Kid_new deltaTime rnd s)
    as [[_ E] | [(_ & _ & E) | (_ & _ & p & _ & E)]]; rewrite E;
    cbn [stateManager set_kidSpawnTimer set_kids]; apply ramp_stateManager.
Qed.

(** X23. A tick asks the state manager for one thing only: it pushes
    [paused], or requests the victory game over, or requests the defeat
    game over, each exactly once and with nothing else, or it pushes
    upgrade selections (possibly none).  The proximity passes never end
    the game and a tick never requests two transitions. *)
Theorem tick_requests (pausePressed : bool) (deltaTime : Q) (rnd : Random)
    (s : PlayingState) :
  exists l,
    stateManager (update Kid_new entitiesUpdate pausePressed deltaTime rnd s)
    = stateManager s ++ l /\
    (l = [pushState "paused"] /\ pausePressed = true \/
     l = [changeState "gameover" true None] /\ pausePressed = false \/
     l = [changeState "gameover" false (Some "chaos"%string)]
       /\ pausePressed = false \/
     Forall (fun c => isUpgradePush c = true) l /\ pausePressed = false).
Proof.
  unfold update. destruct pausePressed.
  { eexists. split; [reflexivity | left; split; reflexivity]. }
  destruct (isPaused (gameData s)).
  { exists []. split; [now rewrite app_nil_r|].
    right. right. right. split; [constructor | reflexivity]. }
  cbv zeta.
  destruct (Qle_bool _ _).
  { eexists. split; [reflexivity | right; left; split; reflexivity]. }
  destruct (Qle_bool _ _).
  { eexists. split; [reflexivity | right; right; left; split; reflexivity]. }
  unfold interactions.
  set (s2 := updateChaos deltaTime (advanceTime deltaTime s)).
  set (s3 := updateKidSpawning Kid_new deltaTime rnd
               (entitiesUpdate deltaTime s2)).
  assert (E3 : stateManager s3 = stateManager s).
  { subst s3. rewrite updateKidSpawning_stateManager, entities_quiet.
    reflexivity. }
  pose proof (only_pushes_trans _ _ _ (checkBookPickup_pushes s3)
                (only_pushes_trans _ _ _ (checkBookSnatching_pushes _)
                   (checkBookShelving_pushes _))) as (l & El & Fl).
  exists l. split.
  - change (stateManager (updateParticles deltaTime ?a))
      with (stateManager a).
    rewrite El, E3. reflexivity.
  - right. right. right. split; [exact Fl | reflexivity].
Qed.

End TickRequests.

Lemma tick_requests_witness :
  exists l,
    stateManager (update sample_Kid_new idle false (1 # 60) sample_random
                    (floor_book_by_shelf 0 96))
    = stateManager (floor_book_by_shelf 0 96) ++ l.
Proof.
  destruct (tick_requests sample_Kid_new idle (fun _ _ => eq_refl) false
              (1 # 60) sample_random (floor_book_by_shelf 0 96))
    as (l & E & _).
  exists l. exact E.
Defined.

(** ** The pickup pass, book by book *)













Section TickPasses.

Variable Kid_new : Q -> Q -> Z -> Kid.
Variable entitiesUpdate : Q -> PlayingState -> PlayingState.


End TickPasses.




(** ** The shelving pass, shelf by shelf *)


















Section TickShelving.

Variable Kid_new : Q -> Q -> Z -> Kid.
Variable entitiesUpdate : Q -> PlayingState -> PlayingState.


End TickShelving.



(** The shelf takes the first held book of its colour: with an older red
    book in hand, that one is shelved and the red book picked up in the
    tick stays in hand until a later tick. *)
Lemma older_book_is_shelved_first :
  let s' :=
    update sample_Kid_new idle false (1 # 60) sample_random
      older_book_in_hand in
  carriedByPlayer
    (checkBookPickup
       (beforePickup sample_Kid_new idle (1 # 60) sample_random
          older_book_in_hand)) = [1; 0]%nat /\
  carriedByPlayer s' = [0%nat] /\
  (shelf_books <$> shelves s' !! 0%nat) = Some [1%nat].
Proof. vm_compute. repeat split. Qed.
